(** * SurfaceArea.py: the triangulated surface-area estimator

    A shallow embedding of [surface_area] from [src/SurfaceArea.py].

    The source is a numpy program over float arrays.  Its arithmetic is
    kept abstract in the class [Arith], and the function is written once,
    statement by statement, over it.  Two instances are used:

    - [RArith]: the real numbers, the exact reading of the formulas.  The
      spec describes grids, resolution and area as real numbers and
      compares areas "within floating-point tolerance";
    - [FArith]: IEEE 754 binary64 (Rocq's primitive floats), numpy's
      float64 with its NaN, infinities and rounding.

    Identities and inequalities between areas are proved on the exact
    instance; what the code does with NaN, infinities and negative
    radicands is settled on the binary64 instance, where the effect of
    rounding on some of the identities is recorded too.

    What is taken from numpy and Python:
    - an array of shape (rows, cols) is the list of its rows, all of the
      same length ([shape]);
    - the slices [0:-1] and [1:] drop the last and the first element;
    - on an array, [A ** 2.0] is the product x * x of each element and
      [A ** 0.5] its square root, as numpy computes a float array raised
      to these two scalars;
    - on the resolution, a Python float, [resolution ** 2.] is CPython's
      [float_pow]: it settles NaN, the infinities, 0 and 1 itself, calls
      C's [pow] on the absolute value otherwise, and raises
      [OverflowError] when [pow] returns an infinity.  C's [pow] is a
      parameter ([Libm]): its result may differ from the rounded product
      in the last place;
    - [np.sum] starts from 0 and adds numpy's pairwise sum of the elements
      taken in row-major order: fewer than 8 elements one after the
      other, up to 128 in eight interleaved accumulators, more by halves;
    - [np.sqrt] of a negative float is NaN, with a warning and no
      exception.

    The exact instance reads every formula over the real numbers: no
    rounding, no overflow, no NaN.  A statement proved on it is a
    statement about the formulas of the program in exact arithmetic, and
    says so; what the program computes on float64 is the binary64
    instance. *)

From Stdlib Require Import List Arith Lia.
From Stdlib Require Import Reals Lra Psatz.
From Stdlib Require Import Floats.
Import ListNotations.

Set Implicit Arguments.

(** ** Outcome of a Python call *)

(** A call either returns a value or raises.  [ValueError] is Python's
    invalid-argument exception, [OverflowError] what a float operation
    raises when its result is out of range. *)
Inductive exn : Type :=
| ValueError
| OverflowError.

Inductive outcome (A : Type) : Type :=
| Returned (v : A)
| Raised (e : exn).

Arguments Returned {A} v.
Arguments Raised {A} e.

(** ** The arithmetic of array elements *)

(** The operations and literals [surface_area] uses on numbers. *)
Class Arith (T : Type) : Type := {
  lit_0 : T;               (* the value of np.sum over no element *)
  lit_0_5 : T;             (* the literal 0.5 *)
  lit_2 : T;               (* the literal 2.0 *)
  add : T -> T -> T;
  sub : T -> T -> T;
  mul : T -> T -> T;
  sqrt : T -> T;
  float_pow2 : T -> T;           (* the value of x ** 2. on a Python float *)
  float_pow2_raises : T -> bool  (* x ** 2. raises OverflowError instead *)
}.

(** ** Two-dimensional arrays *)

(** A two-dimensional numpy array, as the list of its rows. *)
Definition matrix (T : Type) : Type := list (list T).

(** [shape M r c]: [M] has [r] rows, each of [c] elements. *)
Definition shape {T} (M : matrix T) (r c : nat) : Prop :=
  length M = r /\ Forall (fun row => length row = c) M.

(** Positional pairing of two lists, as an element-wise numpy operator
    pairs operands of the same shape. *)
Fixpoint map2 {A B C} (f : A -> B -> C) (l : list A) (l' : list B) : list C :=
  match l, l' with
  | x :: t, y :: t' => f x y :: map2 f t t'
  | _, _ => []
  end.

Section Numpy.
Context {T : Type} `{Arith T}.

(** The four slices of the source. *)
(* DEM[0:-1, 0:-1] *)
Definition slice_tl (M : matrix T) : matrix T := map (@removelast T) (removelast M).
(* DEM[0:-1, 1:] *)
Definition slice_tr (M : matrix T) : matrix T := map (@tl T) (removelast M).
(* DEM[1:, 0:-1] *)
Definition slice_bl (M : matrix T) : matrix T := map (@removelast T) (tl M).
(* DEM[1:, 1:] *)
Definition slice_br (M : matrix T) : matrix T := map (@tl T) (tl M).

(** [x ** 2.0] and [x ** 0.5] on the elements of an array. *)
Definition pow2 (x : T) : T := mul x x.
Definition pow_half (x : T) : T := sqrt x.

(* A - B *)
Definition msub (A B : matrix T) : matrix T := map2 (map2 sub) A B.
(* A + B *)
Definition madd (A B : matrix T) : matrix T := map2 (map2 add) A B.
(* A * B *)
Definition mmul (A B : matrix T) : matrix T := map2 (map2 mul) A B.
(* A + k, k a scalar *)
Definition madd_scalar (A : matrix T) (k : T) : matrix T :=
  map (map (fun x => add x k)) A.
(* k * A, k a scalar *)
Definition mscale (k : T) (A : matrix T) : matrix T :=
  map (map (fun x => mul k x)) A.
(* A ** 2.0 *)
Definition mpow2 (A : matrix T) : matrix T := map (map pow2) A.
(* A ** 0.5 *)
Definition mpow_half (A : matrix T) : matrix T := map (map pow_half) A.
(* np.sqrt(A) *)
Definition np_sqrt (A : matrix T) : matrix T := map (map sqrt) A.

(** numpy's pairwise summation ([pairwise_sum] of its add loop). *)
(* for (i = 0; i < n; i++) res += a[i] *)
Definition sum_loop (res : T) (l : list T) : T := fold_left add l res.

(* r[j] += a[i + j] for j < 8, over the next [k] groups of eight *)
Fixpoint add_groups (k : nat) (r l : list T) : list T * list T :=
  match k with
  | 0 => (r, l)
  | S k' => add_groups k' (map2 add r (firstn 8 l)) (skipn 8 l)
  end.

(* ((r[0] + r[1]) + (r[2] + r[3])) + ((r[4] + r[5]) + (r[6] + r[7])) *)
Definition sum_accumulators (r : list T) : T :=
  match r with
  | [r0; r1; r2; r3; r4; r5; r6; r7] =>
      add (add (add r0 r1) (add r2 r3)) (add (add r4 r5) (add r6 r7))
  | _ => lit_0
  end.

(* 8 <= n <= 128: eight accumulators over the groups of eight, then the
   n % 8 elements left, one after the other. *)
Definition sum_block (l : list T) : T :=
  let (r, rest) := add_groups (length l / 8 - 1) (firstn 8 l) (skipn 8 l) in
  sum_loop (sum_accumulators r) rest.

(* [fuel] bounds the depth of the halving; the length of [l] is enough. *)
Fixpoint pairwise_sum (fuel : nat) (l : list T) : T :=
  let n := length l in
  if n <? 8 then sum_loop lit_0 l
  else if n <=? 128 then sum_block l
  else
    match fuel with
    | 0 => sum_block l
    | S fuel' =>
        let n2 := n / 2 - (n / 2) mod 8 in
        add (pairwise_sum fuel' (firstn n2 l)) (pairwise_sum fuel' (skipn n2 l))
    end.

(* np.sum(A): the result starts as 0, the identity of add, and the
   pairwise sum of all elements, in row-major order, is added to it. *)
Definition np_sum (A : matrix T) : T :=
  add lit_0 (pairwise_sum (length (concat A)) (concat A)).

(** ((P - Q) ** 2.0 + k) ** 0.5: the length of the segments between the
    points of [P] and [Q], [k] being their squared horizontal distance. *)
Definition seg (P Q : matrix T) (k : T) : matrix T :=
  mpow_half (madd_scalar (mpow2 (msub P Q)) k).

(** Heron's radicand s * (s - a) * (s - b) * (s - c), element-wise. *)
Definition radicand (s a b c : matrix T) : matrix T :=
  mmul (mmul (mmul s (msub s a)) (msub s b)) (msub s c).

Section Body.
Variables (DEM : matrix T) (resolution : T).

(** The values of the two variables when [resolution ** 2.] returns. *)
Definition resolution_squared : T := float_pow2 resolution.
Definition cross_distance_squared : T := mul lit_2 (float_pow2 resolution).

Definition m1 : matrix T := seg (slice_tl DEM) (slice_tr DEM) resolution_squared.
Definition m2 : matrix T := seg (slice_tl DEM) (slice_bl DEM) resolution_squared.
Definition m3 : matrix T := seg (slice_tl DEM) (slice_br DEM) cross_distance_squared.
Definition m4 : matrix T := seg (slice_tr DEM) (slice_br DEM) resolution_squared.
Definition m5 : matrix T := seg (slice_bl DEM) (slice_br DEM) resolution_squared.

Definition s1 : matrix T := mscale lit_0_5 (madd (madd m3 m5) m2).
Definition s2 : matrix T := mscale lit_0_5 (madd (madd m3 m4) m1).

(** The operands of the two [np.sqrt] calls. *)
Definition radicand1 : matrix T := radicand s1 m3 m5 m2.
Definition radicand2 : matrix T := radicand s2 m3 m4 m1.

Definition area : T :=
  add (np_sum (np_sqrt radicand1)) (np_sum (np_sqrt radicand2)).

(** The function has no [raise] of its own and ends in [return area];
    the one operation of its body that can raise is [resolution ** 2.],
    first evaluated for [resolution_squared]. *)
Definition surface_area : outcome T :=
  if float_pow2_raises resolution then Raised OverflowError
  else Returned area.
End Body.
End Numpy.

(** ** The two instances *)

(** Exact arithmetic: the real numbers. *)
#[export] Instance RArith : Arith R := {|
  lit_0 := 0%R;
  lit_0_5 := (/ 2)%R;
  lit_2 := 2%R;
  add := Rplus;
  sub := Rminus;
  mul := Rmult;
  sqrt := R_sqrt.sqrt;
  float_pow2 := fun x => (x * x)%R;
  float_pow2_raises := fun _ => false
|}.

(** C's [pow(v, 2.0)] for a finite [v] > 0 other than 1, the one use
    [float_pow] makes of the C library here.  The source does not fix the
    library, so it is a parameter. *)
Class Libm : Type := {
  c_pow2 : float -> float
}.

(** [x ** 2.] on a Python float, as far as [float_pow] settles it without
    calling [pow]: nan ** 2. is nan, (+-inf) ** 2. is fabs(+-inf),
    (+-0.0) ** 2. is 0.0 and (+-1.0) ** 2. is 1.0. *)
Definition float_pow2_special (x : float) : option float :=
  if is_nan x then Some x
  else if is_infinity x then Some (abs x)
  else if (x =? 0)%float then Some 0%float
  else if (abs x =? 1)%float then Some 1%float
  else None.

(** Otherwise the result is pow(fabs(x), 2.0), and [OverflowError] when
    that is an infinity. *)
Definition py_float_pow2 `{Libm} (x : float) : float :=
  match float_pow2_special x with
  | Some v => v
  | None => c_pow2 (abs x)
  end.

Definition py_float_pow2_raises `{Libm} (x : float) : bool :=
  match float_pow2_special x with
  | Some _ => false
  | None => is_infinity (c_pow2 (abs x))
  end.

(** numpy's float64: IEEE 754 binary64, round to nearest even. *)
#[export] Instance FArith `{Libm} : Arith float := {|
  lit_0 := 0%float;
  lit_0_5 := 0.5%float;
  lit_2 := 2%float;
  add := PrimFloat.add;
  sub := PrimFloat.sub;
  mul := PrimFloat.mul;
  sqrt := PrimFloat.sqrt;
  float_pow2 := py_float_pow2;
  float_pow2_raises := py_float_pow2_raises
|}.

(** A C library whose [pow(v, 2.0)] is the correctly rounded square.  It
    is the library of the closed examples below; their resolutions are 1
    and -1, which [float_pow] settles without calling [pow], and 1e200,
    whose square is out of range for every library. *)
#[export] Instance libm_rounded : Libm := {|
  c_pow2 := fun v => (v * v)%float
|}.

(** ** Cells: what the array expressions compute at one position *)

Section Cells.
Context {T : Type} `{Arith T}.

(** The element of [M] at row [i], column [j]. *)
Definition get (M : matrix T) (i j : nat) : T := nth j (nth i M []) lit_0.

(** The array of shape (r, c) whose element at (i, j) is [f i j]. *)
Definition tabulate (r c : nat) (f : nat -> nat -> T) : matrix T :=
  map (fun i => map (fun j => f i j) (seq 0 c)) (seq 0 r).

(** ((p - q) ** 2.0 + k) ** 0.5 *)
Definition edge (k p q : T) : T := pow_half (add (pow2 (sub p q)) k).

(** 0.5 * (a + b + c) *)
Definition semi (a b c : T) : T := mul lit_0_5 (add (add a b) c).

(** s * (s - a) * (s - b) * (s - c) *)
Definition heron (s a b c : T) : T :=
  mul (mul (mul s (sub s a)) (sub s b)) (sub s c).

(** The radicand of the triangle TL, BL, BR (sides m3, m5, m2) of the
    2x2 neighbourhood with corners [tl tr bl br]. *)
Definition upper (res tl tr bl br : T) : T :=
  let e3 := edge (cross_distance_squared res) tl br in
  let e5 := edge (resolution_squared res) bl br in
  let e2 := edge (resolution_squared res) tl bl in
  heron (semi e3 e5 e2) e3 e5 e2.

(** The radicand of the triangle TL, TR, BR (sides m3, m4, m1). *)
Definition lower (res tl tr bl br : T) : T :=
  let e3 := edge (cross_distance_squared res) tl br in
  let e4 := edge (resolution_squared res) tr br in
  let e1 := edge (resolution_squared res) tl tr in
  heron (semi e3 e4 e1) e3 e4 e1.

(** The corners of the neighbourhood at (i, j) of the grid [f], given
    to [F] as TL, TR, BL, BR. *)
Definition at_cell (F : T -> T -> T -> T -> T) (f : nat -> nat -> T)
    (i j : nat) : T :=
  F (f i j) (f i (S j)) (f (S i) j) (f (S i) (S j)).

(** The grid [f] with the element at (i, j) replaced by [v]. *)
Definition replaced (f : nat -> nat -> T) (i j : nat) (v : T)
    (i' j' : nat) : T :=
  if (Nat.eqb i' i && Nat.eqb j' j)%bool then v else f i' j'.

(** [M] with the element at (i, j) replaced by [v]; [M] itself when the
    position is outside. *)
Definition set_at (M : matrix T) (i j : nat) (v : T) : matrix T :=
  tabulate (length M) (length (hd [] M)) (replaced (get M) i j v).

(** The grid with the elevation at (i, j) increased by [delta]. *)
Definition raise_at (M : matrix T) (i j : nat) (delta : T) : matrix T :=
  set_at M i j (add (get M i j) delta).

(** grid + c: every elevation increased by [c]. *)
Definition raise_all (c : T) (M : matrix T) : matrix T :=
  map (map (fun x => add x c)) M.

(** numpy's [M.T]. *)
Definition transpose (M : matrix T) : matrix T :=
  tabulate (length (hd [] M)) (length M) (fun j i => get M i j).
End Cells.

(** ** Finite sums of real numbers *)

Definition Rsum (l : list R) : R := fold_right Rplus 0%R l.

(** The sum of [f i j] over i < r and j < c. *)
Definition sum2 (r c : nat) (f : nat -> nat -> R) : R :=
  Rsum (map (fun i => Rsum (map (fun j => f i j) (seq 0 c))) (seq 0 r)).

(** ** Closed forms in exact arithmetic *)

(** Heron's radicand of a right-angled-in-plan triangle of the mesh: legs
    of horizontal length [res] rising by [p] and by [q]. *)
Definition tri2 (res p q : R) : R :=
  (res * res * (res * res + p * p + q * q) / 4)%R.

(** Its area. *)
Definition tri (res p q : R) : R :=
  (Rabs res / 2 * R_sqrt.sqrt (res * res + p * p + q * q))%R.

(** The area of the two triangles of a neighbourhood. *)
Definition cell_area (res tl tr bl br : R) : R :=
  (tri res (tl - bl) (bl - br) + tri res (tl - tr) (tr - br))%R.

(** ** The grids the properties speak of *)

(** Every elevation of the grid is the same. *)
Definition all_equal (M : matrix R) : Prop :=
  forall x y, In x (concat M) -> In y (concat M) -> x = y.

(** Positions (i', j') and (i, j) are next to each other in a row or in a
    column. *)
Definition neighbour (i j i' j' : nat) : Prop :=
  (i' = i /\ (j' = S j \/ j = S j')) \/ (j' = j /\ (i' = S i \/ i = S i')).

(** The flat projected area of a grid of shape (r, c). *)
Definition flat_area (r c : nat) (res : R) : R :=
  (INR (r - 1) * INR (c - 1) * res * res)%R.

(** A level 2 x 2 grid. *)
Definition level22 : matrix R := [[0; 0]; [0; 0]]%R.

(** A 2 x 2 grid with a pit in one corner. *)
Definition pit22 : matrix R := [[0; 0]; [0; -1]]%R.

(** A 2 x 3 grid with no two equal elevations. *)
Definition slope23 : matrix R := [[0; 1; 2]; [3; 4; 6]]%R.

(** A single row. *)
Definition row13 : matrix R := [[1; 2; 3]]%R.

(** The grid of [test_known_pyramid]. *)
Definition pyramid : matrix R :=
  [[0; 0; 0]; [0; 1; 0]; [0; 0; 0]]%R.

(** ** Binary64 values that are not finite *)

(** An elevation that is NaN or infinite. *)
Definition non_finite (x : float) : Prop :=
  is_nan x = true \/ is_infinity x = true.

(** Classes of IEEE values, on their specification [spec_float]: NaN or
    an infinity; NaN or +infinity. *)
Definition sf_nonfinite (f : spec_float) : bool :=
  match f with S754_nan | S754_infinity _ => true | _ => false end.

Definition sf_top (f : spec_float) : bool :=
  match f with S754_nan | S754_infinity false => true | _ => false end.

(** A list of floats one of which is NaN. *)
Definition has_nan (l : list float) : Prop :=
  exists x, In x l /\ Prim2SF x = S754_nan.

(** The binary64 grids of the examples: the pyramid, a level grid, a grid
    with a NaN, and a steep one. *)
Definition pyramid64 : matrix float :=
  [[0; 0; 0]; [0; 1; 0]; [0; 0; 0]]%float.

Definition level64 : matrix float := [[0; 0]; [0; 0]]%float.

Definition nan64 : matrix float := [[nan; 0]; [0; 0]]%float.

Definition steep64 : matrix float := [[0; 0]; [30000000; 98000000]]%float.

(** A single row, a grid whose highest corner is raised in the examples,
    and a 3 x 3 grid that differs from its transpose. *)
Definition row64 : matrix float := [[1; 2; 3]]%float.

Definition peak64 : matrix float := [[0; 0]; [240000000; 256000000]]%float.


(** A grid with relief 1, and a constant large enough to absorb it. *)
Definition step64 : matrix float := [[0; 1]; [0; 0]]%float.

Definition big64 : float := 0x1p+60%float.

(** ** The driver functions *)

(** [getSurfaceAreaFromDEM], [test_known_pyramid] and
    [compare_surface_area] read the clock and a raster file and print.
    What they are given from outside is an argument here: the two clock
    readings [t0] and [t1], the array [rs.open(filename).read()] and the
    dictionary [json.loads] makes of the output of [rio info].  What they
    print is appended to a log, a line being recorded by its format and
    the values it formats; the rendering of [%0.3f] is not modelled. *)

(** [x == y] on array elements. *)
Class Compare (T : Type) : Type := {
  eq_elem : T -> T -> bool
}.

(** Equality of real numbers. *)
#[export] Instance RCompare : Compare R := {|
  eq_elem := fun x y => if Req_dec_T x y then true else false
|}.

(** IEEE equality: NaN equals nothing, 0.0 equals -0.0. *)
#[export] Instance FCompare : Compare float := {|
  eq_elem := PrimFloat.eqb
|}.

(** A three-dimensional array (bands, rows, cols), as the list of its
    bands. *)
Definition raster (T : Type) : Type := list (matrix T).

(** The keys [compare_surface_area] reads in the dictionary. *)
Inductive key : Type :=
| key_res
| key_nodata.

(** The dictionary, as far as it is read: under ['res'] a list of numbers,
    under ['nodata'] a number, each key present or not.  Two inputs of
    the source are outside this model, and every statement about the
    driver is about the others: a ['nodata'] of null ([rio info] on a
    file with no no-data value), for which [dem_arr == None] depends on
    the version of numpy, and an array whose dtype is not float64 (a
    float32 raster), which numpy computes in that dtype. *)
Record rio_info (T : Type) : Type := {
  info_res : option (list T);
  info_nodata : option T
}.

(** The exceptions of the driver: a missing key, an index out of range,
    and whatever [surface_area] raises. *)
Inductive pyerror : Type :=
| KeyError (k : key)
| IndexError
| Propagated (e : exn).

Inductive result (A : Type) : Type :=
| Done (v : A)
| Failed (e : pyerror).

Arguments Done {A} v.
Arguments Failed {A} e.

(** The printed lines. *)
Inductive line (T E : Type) : Type :=
(* "Surface Area Approximation: %0.3f m^2  (took {%0.3f} s)" % (area, t1 - t0) *)
| AreaReport (area elapsed : T)
(* "Expected Area: {:0.3f} m^2\n".format(v) *)
| ExpectedArea (v : T)
(* "Expected Area Approximation: %s m^2\n" % (expected) *)
| ExpectedApproximation (expected : E).

Arguments AreaReport {T E} area elapsed.
Arguments ExpectedArea {T E} v.
Arguments ExpectedApproximation {T E} expected.

(** A computation that prints and may raise: from the lines printed so
    far to the lines printed at its end and its result.  What was printed
    before an exception stays printed. *)
Definition io (L A : Type) : Type := list L -> list L * result A.

Definition ret {L A} (v : A) : io L A := fun log => (log, Done v).

Definition raise {L A} (e : pyerror) : io L A := fun log => (log, Failed e).

Definition print {L} (l : L) : io L unit := fun log => (log ++ [l], Done tt).

Definition bind {L A B} (m : io L A) (k : A -> io L B) : io L B :=
  fun log =>
    match m log with
    | (log', Done v) => k v log'
    | (log', Failed e) => (log', Failed e)
    end.

Declare Scope io_scope.
Delimit Scope io_scope with io.
Notation "x <- m ;; k" := (bind m (fun x => k))
  (at level 61, m at next level, right associativity) : io_scope.
Notation "m ;; k" := (bind m (fun _ => k))
  (at level 61, right associativity) : io_scope.

Section Driver.
Context {T : Type} `{Arith T} `{Compare T} {E : Type}.
Local Open Scope io_scope.

(** [d[k]] on the dictionary. *)
Definition lookup_res (dict_json : rio_info T) : io (line T E) (list T) :=
  match info_res dict_json with
  | Some l => ret l
  | None => raise (KeyError key_res)
  end.

Definition lookup_nodata (dict_json : rio_info T) : io (line T E) T :=
  match info_nodata dict_json with
  | Some v => ret v
  | None => raise (KeyError key_nodata)
  end.

(** [l[0]] on a list or on the first axis of an array. *)
Definition first {A} (l : list A) : io (line T E) A :=
  match l with
  | x :: _ => ret x
  | [] => raise IndexError
  end.

(** [dem_arr[dem_arr==nodata] = 0.0], on one element and on the array. *)
Definition mask_cell (nodata x : T) : T :=
  if eq_elem x nodata then lit_0 else x.

Definition mask_nodata (nodata : T) (dem_arr : raster T) : raster T :=
  map (map (map (mask_cell nodata))) dem_arr.

(** [getSurfaceAreaFromDEM(DEM, resolution)], the clock reading [t0]
    before the call of [surface_area] and [t1] after it. *)
Definition getSurfaceAreaFromDEM (t0 t1 : T) (DEM : matrix T) (resolution : T)
    : io (line T E) unit :=
  match surface_area DEM resolution with
  | Returned area => print (AreaReport area (sub t1 t0))
  | Raised e => raise (Propagated e)
  end.

(** [compare_surface_area(filename, expected)], for the array [dem_arr]
    and the dictionary [dict_json] read from the file. *)
Definition compare_surface_area (dem_arr : raster T) (dict_json : rio_info T)
    (t0 t1 : T) (expected : E) : io (line T E) unit :=
  res <- lookup_res dict_json ;;
  resolution <- first res ;;
  nodata <- lookup_nodata dict_json ;;
  let dem_arr := mask_nodata nodata dem_arr in
  band <- first dem_arr ;;
  getSurfaceAreaFromDEM t0 t1 band resolution ;;
  print (ExpectedApproximation expected).
End Driver.

(** [test_known_pyramid()], in binary64.  The array [D] holds integers;
    their differences are converted to float64 by [** 2.0]. *)
Definition test_known_pyramid {E : Type} (t0 t1 : float) : io (line float E) unit :=
  bind (getSurfaceAreaFromDEM t0 t1 pyramid64 1%float)
       (fun _ => print (ExpectedArea (4 * PrimFloat.sqrt 2)%float)).

(** ** Rescaled, reflected and cut grids *)

Section GridMaps.
Context {T : Type} `{Arith T}.

(** k * grid: every elevation multiplied by [k]. *)
Definition scale_all (k : T) (M : matrix T) : matrix T :=
  map (map (fun x => mul k x)) M.

(** 0 - grid: every elevation negated. *)
Definition negate_all (M : matrix T) : matrix T :=
  map (map (fun x => sub lit_0 x)) M.
End GridMaps.

(** A grid and a no-data value for the driver in exact arithmetic, and a
    raster with a NaN for binary64. *)
Definition holed22 : matrix R := [[5; 5]; [5; -9999]]%R.

Definition nan_raster64 : raster float := [nan64].

(** * Part 1: the arrays, position by position *)

Lemma Returned_inj {A} (x y : A) : Returned x = Returned y -> x = y.
Proof. intros E. now inversion E. Qed.

Section ListFacts.
Context {A B C : Type}.

Lemma map2_map_map (h : A -> B -> C) {X} (f : X -> A) (g : X -> B) (l : list X) :
  map2 h (map f l) (map g l) = map (fun x => h (f x) (g x)) l.
Proof.
  induction l as [|x l IH]; simpl; [reflexivity|].
  now rewrite IH.
Qed.

Lemma removelast_map (f : A -> B) (l : list A) :
  removelast (map f l) = map f (removelast l).
Proof.
  induction l as [|x l IH]; simpl; [reflexivity|].
  destruct l as [|y l]; [reflexivity|].
  simpl in IH |- *. now rewrite IH.
Qed.

Lemma tl_map (f : A -> B) (l : list A) : tl (map f l) = map f (tl l).
Proof. destruct l; reflexivity. Qed.
End ListFacts.

Lemma removelast_seq (s n : nat) : removelast (seq s n) = seq s (n - 1).
Proof.
  revert s; induction n as [|n IH]; intros s; [reflexivity|].
  destruct n as [|n]; [reflexivity|].
  change (seq s (S (S n))) with (s :: seq (S s) (S n)).
  change (removelast (s :: seq (S s) (S n)))
    with (s :: removelast (seq (S s) (S n))).
  rewrite IH. simpl. now rewrite Nat.sub_0_r.
Qed.

Lemma tl_seq (n : nat) : tl (seq 0 n) = map S (seq 0 (n - 1)).
Proof.
  destruct n as [|n]; [reflexivity|].
  simpl. rewrite Nat.sub_0_r. symmetry. apply seq_shift.
Qed.

Section Structure.
Context {T : Type} `{Arith T}.
Implicit Types (f g h s a b d : nat -> nat -> T) (k res : T).

Lemma tabulate_map2 (op : T -> T -> T) (r c : nat) f g :
  map2 (map2 op) (tabulate r c f) (tabulate r c g)
  = tabulate r c (fun i j => op (f i j) (g i j)).
Proof.
  unfold tabulate. rewrite map2_map_map.
  apply map_ext; intros i. apply map2_map_map.
Qed.

Lemma tabulate_map (op : T -> T) (r c : nat) f :
  map (map op) (tabulate r c f) = tabulate r c (fun i j => op (f i j)).
Proof.
  unfold tabulate. rewrite map_map.
  apply map_ext; intros i. apply map_map.
Qed.

Lemma removelast_tabulate_row (c : nat) (u : nat -> T) :
  removelast (map u (seq 0 c)) = map u (seq 0 (c - 1)).
Proof. now rewrite removelast_map, removelast_seq. Qed.

Lemma tl_tabulate_row (c : nat) (u : nat -> T) :
  tl (map u (seq 0 c)) = map (fun j => u (S j)) (seq 0 (c - 1)).
Proof. now rewrite tl_map, tl_seq, map_map. Qed.

Lemma slice_tl_tabulate r c f :
  slice_tl (tabulate r c f) = tabulate (r - 1) (c - 1) f.
Proof.
  unfold slice_tl, tabulate.
  rewrite removelast_map, removelast_seq, map_map.
  apply map_ext; intros i. apply removelast_tabulate_row.
Qed.

Lemma slice_tr_tabulate r c f :
  slice_tr (tabulate r c f) = tabulate (r - 1) (c - 1) (fun i j => f i (S j)).
Proof.
  unfold slice_tr, tabulate.
  rewrite removelast_map, removelast_seq, map_map.
  apply map_ext; intros i. apply tl_tabulate_row.
Qed.

Lemma slice_bl_tabulate r c f :
  slice_bl (tabulate r c f) = tabulate (r - 1) (c - 1) (fun i j => f (S i) j).
Proof.
  unfold slice_bl, tabulate.
  rewrite tl_map, tl_seq, !map_map.
  apply map_ext; intros i. apply removelast_tabulate_row.
Qed.

Lemma slice_br_tabulate r c f :
  slice_br (tabulate r c f) = tabulate (r - 1) (c - 1) (fun i j => f (S i) (S j)).
Proof.
  unfold slice_br, tabulate.
  rewrite tl_map, tl_seq, !map_map.
  apply map_ext; intros i. apply tl_tabulate_row.
Qed.

Lemma seg_tabulate r c f g k :
  seg (tabulate r c f) (tabulate r c g) k
  = tabulate r c (fun i j => edge k (f i j) (g i j)).
Proof.
  unfold seg, mpow_half, madd_scalar, mpow2, msub.
  now rewrite tabulate_map2, !tabulate_map.
Qed.

Lemma semi_tabulate r c f g h :
  mscale lit_0_5 (madd (madd (tabulate r c f) (tabulate r c g)) (tabulate r c h))
  = tabulate r c (fun i j => semi (f i j) (g i j) (h i j)).
Proof.
  unfold mscale, madd. now rewrite !tabulate_map2, tabulate_map.
Qed.

Lemma radicand_tabulate r c s a b d :
  radicand (tabulate r c s) (tabulate r c a) (tabulate r c b) (tabulate r c d)
  = tabulate r c (fun i j => heron (s i j) (a i j) (b i j) (d i j)).
Proof.
  unfold radicand, mmul, msub. now rewrite !tabulate_map2.
Qed.

Lemma radicand1_tabulate r c f res :
  radicand1 (tabulate r c f) res
  = tabulate (r - 1) (c - 1) (at_cell (upper res) f).
Proof.
  unfold radicand1, s1, m2, m3, m5.
  rewrite slice_tl_tabulate, slice_bl_tabulate, slice_br_tabulate.
  rewrite !seg_tabulate, semi_tabulate, radicand_tabulate.
  reflexivity.
Qed.

Lemma radicand2_tabulate r c f res :
  radicand2 (tabulate r c f) res
  = tabulate (r - 1) (c - 1) (at_cell (lower res) f).
Proof.
  unfold radicand2, s2, m1, m3, m4.
  rewrite slice_tl_tabulate, slice_tr_tabulate, slice_br_tabulate.
  rewrite !seg_tabulate, semi_tabulate, radicand_tabulate.
  reflexivity.
Qed.

(** An array of shape (r, c) is the table of its elements. *)
Lemma list_tabulate {X} (d : X) (l : list X) :
  l = map (fun i => nth i l d) (seq 0 (length l)).
Proof.
  induction l as [|x l IH]; [reflexivity|].
  simpl. f_equal. rewrite <- seq_shift, map_map. exact IH.
Qed.

Lemma shape_tabulate (M : matrix T) (r c : nat) :
  shape M r c -> M = tabulate r c (get M).
Proof.
  intros [Hr Hc]. unfold tabulate, get. subst r.
  rewrite (list_tabulate [] M) at 1.
  apply map_ext_in; intros i Hi. apply in_seq in Hi.
  assert (Hl : length (nth i M []) = c).
  { rewrite Forall_forall in Hc. apply Hc, nth_In. lia. }
  rewrite (list_tabulate lit_0 (nth i M [])) at 1. now rewrite Hl.
Qed.

Lemma tabulate_shape r c (f : nat -> nat -> T) : shape (tabulate r c f) r c.
Proof.
  unfold shape, tabulate. split.
  - now rewrite length_map, length_seq.
  - apply Forall_forall. intros row Hin. apply in_map_iff in Hin.
    destruct Hin as [i [<- _]]. now rewrite length_map, length_seq.
Qed.

Lemma get_tabulate r c (f : nat -> nat -> T) i j :
  i < r -> j < c -> get (tabulate r c f) i j = f i j.
Proof.
  intros Hi Hj. unfold get, tabulate.
  rewrite (nth_indep _ [] (map (fun j => f 0 j) (seq 0 c)))
    by now rewrite length_map, length_seq.
  rewrite (map_nth (fun i => map (fun j => f i j) (seq 0 c)) (seq 0 r) 0 i).
  rewrite seq_nth by assumption. simpl.
  rewrite (nth_indep _ lit_0 (f i 0)) by now rewrite length_map, length_seq.
  rewrite (map_nth (fun j => f i j) (seq 0 c) 0 j).
  now rewrite seq_nth.
Qed.
End Structure.

(** ** The fuel of the pairwise summation *)

Section Summation.
Context {T : Type} `{Arith T}.

(** Each half is shorter than the whole: with as much fuel as elements
    the halving never runs out, and more fuel changes nothing. *)
Lemma pairwise_sum_fuel (fuel fuel' : nat) (l : list T) :
  length l <= fuel -> length l <= fuel' ->
  pairwise_sum fuel l = pairwise_sum fuel' l.
Proof.
  revert fuel' l; induction fuel as [|fuel IH]; intros fuel' l H1 H2.
  - destruct l; [|simpl in H1; lia]. destruct fuel'; reflexivity.
  - destruct fuel' as [|fuel'].
    + destruct l; [|simpl in H2; lia]. reflexivity.
    + cbn [pairwise_sum].
      destruct (Nat.ltb_spec (length l) 8); [reflexivity|].
      destruct (Nat.leb_spec (length l) 128); [reflexivity|].
      set (n2 := length l / 2 - (length l / 2) mod 8).
      assert (Hn2 : 1 <= n2 < length l).
      { unfold n2.
        pose proof (Nat.div_mod_eq (length l) 2).
        pose proof (Nat.mod_upper_bound (length l) 2).
        pose proof (Nat.mod_upper_bound (length l / 2) 8). lia. }
      f_equal; apply IH; rewrite ?length_firstn, ?length_skipn; lia.
Qed.
End Summation.

(** * Part 2: exact arithmetic *)

Section ExactSums.
Local Open Scope R_scope.

Lemma fold_left_Rplus (l : list R) (a : R) : fold_left Rplus l a = a + Rsum l.
Proof.
  revert a; induction l as [|x l IH]; intros a; simpl; [lra|].
  rewrite IH. lra.
Qed.

Lemma Rsum_app (l l' : list R) : Rsum (l ++ l') = Rsum l + Rsum l'.
Proof. induction l as [|x l IH]; simpl; [lra|]. rewrite IH. lra. Qed.

Lemma Rsum_concat (L : list (list R)) : Rsum (concat L) = Rsum (map Rsum L).
Proof.
  induction L as [|l L IH]; simpl; [reflexivity|].
  now rewrite Rsum_app, IH.
Qed.

(** In exact arithmetic the order of numpy's pairwise summation does not
    matter: it is the sum of the elements. *)
Lemma Rsum_map2_plus (r g : list R) :
  length r = length g -> Rsum (map2 Rplus r g) = Rsum r + Rsum g.
Proof.
  revert g; induction r as [|x r IH]; intros [|y g] E; simpl in *;
    try discriminate; [lra|].
  rewrite IH by congruence. lra.
Qed.

Lemma length_map2 {A B C} (f : A -> B -> C) (l : list A) (l' : list B) :
  length l = length l' -> length (map2 f l l') = length l.
Proof.
  revert l'; induction l as [|x l IH]; intros [|y l'] E; simpl in *;
    try discriminate; [reflexivity|].
  now rewrite IH by congruence.
Qed.

Lemma add_groups_exact (k : nat) (r l : list R) :
  length r = 8%nat -> (8 * k <= length l)%nat ->
  Rsum (fst (add_groups k r l)) + Rsum (snd (add_groups k r l)) = Rsum r + Rsum l
  /\ length (fst (add_groups k r l)) = 8%nat.
Proof.
  revert r l; induction k as [|k IH]; intros r l Hr Hl.
  - simpl. split; [reflexivity|exact Hr].
  - cbn [add_groups].
    assert (H8 : length (firstn 8 l) = 8%nat) by (rewrite length_firstn; lia).
    destruct (IH (map2 add r (firstn 8 l)) (skipn 8 l)) as [E L].
    + rewrite length_map2; congruence.
    + rewrite length_skipn. lia.
    + split; [|exact L]. rewrite E.
      change (@add R RArith) with Rplus.
      rewrite Rsum_map2_plus by congruence.
      rewrite <- (firstn_skipn 8 l) at 3. rewrite Rsum_app. lra.
Qed.

Lemma sum_accumulators_exact (r : list R) :
  length r = 8%nat -> sum_accumulators r = Rsum r.
Proof.
  intros E.
  do 8 (destruct r as [|? r]; [discriminate E|]).
  destruct r; [|discriminate E]. simpl. lra.
Qed.

Lemma sum_block_exact (l : list R) :
  (8 <= length l)%nat -> sum_block l = Rsum l.
Proof.
  intros Hl. unfold sum_block.
  assert (H8 : length (firstn 8 l) = 8%nat) by (rewrite length_firstn; lia).
  assert (Hk : (8 * (length l / 8 - 1) <= length (skipn 8 l))%nat).
  { rewrite length_skipn.
    pose proof (Nat.Div0.mul_div_le (length l) 8). lia. }
  destruct (add_groups_exact (length l / 8 - 1) (firstn 8 l) (skipn 8 l) H8 Hk)
    as [E L].
  destruct (add_groups (length l / 8 - 1) (firstn 8 l) (skipn 8 l)) as [r rest].
  simpl fst in *; simpl snd in *.
  unfold sum_loop. change (@add R RArith) with Rplus.
  rewrite fold_left_Rplus, (sum_accumulators_exact r L), E.
  rewrite <- (firstn_skipn 8 l) at 3. now rewrite Rsum_app.
Qed.

Lemma pairwise_sum_exact (fuel : nat) (l : list R) :
  pairwise_sum fuel l = Rsum l.
Proof.
  revert l; induction fuel as [|fuel IH]; intros l; cbn [pairwise_sum];
    destruct (Nat.ltb_spec (length l) 8) as [H8|H8];
    try (unfold sum_loop; change (@add R RArith) with Rplus;
         rewrite fold_left_Rplus; simpl; lra);
    destruct (Nat.leb_spec (length l) 128) as [Hb|Hb];
    try (now apply sum_block_exact).
  rewrite !IH. change (@add R RArith) with Rplus.
  rewrite <- Rsum_app. now rewrite firstn_skipn.
Qed.

Lemma np_sum_tabulate (r c : nat) (f : nat -> nat -> R) :
  np_sum (tabulate r c f) = sum2 r c f.
Proof.
  unfold np_sum, sum2, tabulate. rewrite pairwise_sum_exact.
  simpl add. simpl lit_0.
  rewrite Rsum_concat, map_map. lra.
Qed.

Section OverList.
Context {X : Type}.
Implicit Types (f g : X -> R) (l : list X).

Lemma Rsum_map_ext f g l :
  (forall x, In x l -> f x = g x) -> Rsum (map f l) = Rsum (map g l).
Proof. intros E. f_equal. now apply map_ext_in. Qed.

Lemma Rsum_map_le f g l :
  (forall x, In x l -> f x <= g x) -> Rsum (map f l) <= Rsum (map g l).
Proof.
  induction l as [|x l IH]; intros E; simpl; [lra|].
  assert (f x <= g x) by (apply E; now left).
  assert (Rsum (map f l) <= Rsum (map g l)) by (apply IH; intros; apply E; now right).
  lra.
Qed.

Lemma Rsum_map_const (k : R) l :
  Rsum (map (fun _ => k) l) = INR (length l) * k.
Proof.
  induction l as [|x l IH]; [simpl; lra|].
  change (Rsum (map (fun _ => k) (x :: l))) with (k + Rsum (map (fun _ => k) l)).
  rewrite IH. change (length (x :: l)) with (S (length l)).
  rewrite S_INR. lra.
Qed.

Lemma Rsum_map_plus f g l :
  Rsum (map (fun x => f x + g x) l) = Rsum (map f l) + Rsum (map g l).
Proof. induction l as [|x l IH]; simpl; [lra|]. rewrite IH. lra. Qed.

(** Terms that are pairwise ordered and have equal sums are equal. *)
Lemma Rsum_map_squeeze f g l :
  (forall x, In x l -> f x <= g x) ->
  Rsum (map f l) = Rsum (map g l) ->
  forall x, In x l -> f x = g x.
Proof.
  induction l as [|y l IH]; intros E S x Hx; [contradiction|].
  simpl in S.
  assert (f y <= g y) by (apply E; now left).
  assert (Rsum (map f l) <= Rsum (map g l))
    by (apply Rsum_map_le; intros; apply E; now right).
  destruct Hx as [<-|Hx]; [lra|].
  apply IH; [intros; apply E; now right|lra|exact Hx].
Qed.
End OverList.


Lemma sum2_ext r c (f g : nat -> nat -> R) :
  (forall i j, (i < r)%nat -> (j < c)%nat -> f i j = g i j) ->
  sum2 r c f = sum2 r c g.
Proof.
  intros E. unfold sum2. apply Rsum_map_ext; intros i Hi.
  apply Rsum_map_ext; intros j Hj. apply in_seq in Hi, Hj. apply E; lia.
Qed.

Lemma sum2_le r c (f g : nat -> nat -> R) :
  (forall i j, (i < r)%nat -> (j < c)%nat -> f i j <= g i j) ->
  sum2 r c f <= sum2 r c g.
Proof.
  intros E. unfold sum2. apply Rsum_map_le; intros i Hi.
  apply Rsum_map_le; intros j Hj. apply in_seq in Hi, Hj. apply E; lia.
Qed.

Lemma sum2_const r c (k : R) : sum2 r c (fun _ _ => k) = INR r * INR c * k.
Proof.
  unfold sum2. rewrite (Rsum_map_ext _ (fun _ => INR c * k)).
  - rewrite Rsum_map_const, length_seq. lra.
  - intros i _. now rewrite Rsum_map_const, length_seq.
Qed.

Lemma sum2_plus r c (f g : nat -> nat -> R) :
  sum2 r c (fun i j => f i j + g i j) = sum2 r c f + sum2 r c g.
Proof.
  unfold sum2. rewrite <- Rsum_map_plus. apply Rsum_map_ext; intros i _.
  apply Rsum_map_plus.
Qed.

Lemma sum2_squeeze r c (f g : nat -> nat -> R) :
  (forall i j, (i < r)%nat -> (j < c)%nat -> f i j <= g i j) ->
  sum2 r c f = sum2 r c g ->
  forall i j, (i < r)%nat -> (j < c)%nat -> f i j = g i j.
Proof.
  intros E S i j Hi Hj. unfold sum2 in S.
  assert (Hrow : Rsum (map (fun j => f i j) (seq 0 c))
                 = Rsum (map (fun j => g i j) (seq 0 c))).
  { apply (Rsum_map_squeeze
             (fun i => Rsum (map (fun j => f i j) (seq 0 c)))
             (fun i => Rsum (map (fun j => g i j) (seq 0 c))) (seq 0 r)).
    - intros x Hx. apply Rsum_map_le; intros y Hy.
      apply in_seq in Hx, Hy. apply E; lia.
    - exact S.
    - apply in_seq; lia. }
  apply (Rsum_map_squeeze (fun j => f i j) (fun j => g i j) (seq 0 c)).
  - intros y Hy. apply in_seq in Hy. apply E; lia.
  - exact Hrow.
  - apply in_seq; lia.
Qed.

End ExactSums.

Section ExactCells.
Local Open Scope R_scope.

Lemma tri2_nonneg res p q : 0 <= tri2 res p q.
Proof. unfold tri2. nra. Qed.

(** Heron's radicand in terms of the squared sides. *)
Lemma heron_squares (a b c : R) :
  heron (semi c b a) c b a
  = (4 * (a * a) * (b * b) - (a * a + b * b - c * c) * (a * a + b * b - c * c)) / 16.
Proof. unfold heron, semi. simpl. field. Qed.

Lemma edge_sq (k p q : R) :
  0 <= k -> edge k p q * edge k p q = (p - q) * (p - q) + k.
Proof.
  intros Hk. unfold edge, pow_half, pow2. simpl.
  apply sqrt_sqrt.
  pose proof (Rle_0_sqr (p - q)) as Hsq. unfold Rsqr in Hsq. lra.
Qed.

Lemma rsq_nonneg (res : R) : 0 <= resolution_squared res.
Proof. unfold resolution_squared, pow2. simpl. nra. Qed.

Lemma csq_nonneg (res : R) : 0 <= cross_distance_squared res.
Proof. unfold cross_distance_squared, pow2. simpl. nra. Qed.

(** The radicand of the triangle TL, BL, BR: its two legs run from BL,
    with rises [tl - bl] and [bl - br]. *)
Lemma upper_exact res tl tr bl br :
  upper res tl tr bl br = tri2 res (tl - bl) (bl - br).
Proof.
  unfold upper. rewrite heron_squares.
  rewrite !edge_sq by (apply rsq_nonneg || apply csq_nonneg).
  unfold tri2, resolution_squared, cross_distance_squared, pow2. simpl.
  field.
Qed.

(** The radicand of the triangle TL, TR, BR: its two legs run from TR,
    with rises [tl - tr] and [tr - br]. *)
Lemma lower_exact res tl tr bl br :
  lower res tl tr bl br = tri2 res (tl - tr) (tr - br).
Proof.
  unfold lower. rewrite heron_squares.
  rewrite !edge_sq by (apply rsq_nonneg || apply csq_nonneg).
  unfold tri2, resolution_squared, cross_distance_squared, pow2. simpl.
  field.
Qed.

Lemma sqrt_tri2 res p q : R_sqrt.sqrt (tri2 res p q) = tri res p q.
Proof.
  unfold tri2, tri.
  replace (res * res * (res * res + p * p + q * q) / 4)
    with ((Rabs res / 2) * (Rabs res / 2) * (res * res + p * p + q * q)).
  - rewrite sqrt_mult_alt by nra.
    rewrite sqrt_square; [reflexivity|].
    pose proof (Rabs_pos res). lra.
  - replace (Rabs res / 2 * (Rabs res / 2)) with (Rabs res * Rabs res / 4) by field.
    fold (Rsqr (Rabs res)). rewrite <- Rsqr_abs. unfold Rsqr. field.
Qed.

(** The area of a triangle is least when its legs do not rise. *)
Lemma tri_flat res : tri res 0 0 = res * res / 2.
Proof.
  unfold tri.
  replace (res * res + 0 * 0 + 0 * 0) with (Rsqr res) by (unfold Rsqr; ring).
  rewrite sqrt_Rsqr_abs.
  replace (Rabs res / 2 * Rabs res) with (Rsqr (Rabs res) / 2) by (unfold Rsqr; field).
  rewrite <- Rsqr_abs. reflexivity.
Qed.

Lemma tri_mono res p q p' q' :
  p * p <= p' * p' -> q * q <= q' * q' -> tri res p q <= tri res p' q'.
Proof.
  intros Hp Hq. unfold tri.
  apply Rmult_le_compat_l; [pose proof (Rabs_pos res); lra|].
  apply sqrt_le_1_alt. lra.
Qed.

Lemma tri_ge_flat res p q : res * res / 2 <= tri res p q.
Proof. rewrite <- tri_flat. apply tri_mono; nra. Qed.

Lemma tri_eq_flat res p q :
  res <> 0 -> tri res p q = res * res / 2 -> p = 0 /\ q = 0.
Proof.
  intros Hres E. rewrite <- tri_flat in E. unfold tri in E.
  assert (Habs : 0 < Rabs res / 2) by (pose proof (Rabs_pos_lt res Hres); lra).
  apply Rmult_eq_reg_l in E; [|lra].
  apply sqrt_inj in E; [|nra|nra].
  split; nra.
Qed.

(** [area] as a sum over the neighbourhoods. *)
Lemma area_tabulate (r c : nat) (f : nat -> nat -> R) (res : R) :
  area (tabulate r c f) res = sum2 (r - 1) (c - 1) (at_cell (cell_area res) f).
Proof.
  unfold area, np_sqrt.
  rewrite radicand1_tabulate, radicand2_tabulate, !tabulate_map, !np_sum_tabulate.
  simpl add. rewrite <- sum2_plus. apply sum2_ext; intros i j _ _.
  unfold at_cell, cell_area. simpl sqrt.
  now rewrite upper_exact, lower_exact, !sqrt_tri2.
Qed.

Theorem area_exact (DEM : matrix R) (r c : nat) (res : R) :
  shape DEM r c ->
  area DEM res
  = sum2 (r - 1) (c - 1) (at_cell (cell_area res) (get DEM)).
Proof.
  intros Hs. rewrite (shape_tabulate Hs) at 1. apply area_tabulate.
Qed.

(** Nothing overflows in exact arithmetic: the function returns [area]. *)
Lemma surface_area_returns (DEM : matrix R) (res : R) :
  surface_area DEM res = Returned (area DEM res).
Proof. reflexivity. Qed.
End ExactCells.

(** ** Grids with no neighbourhood *)

Section Degenerate.
Context {T : Type} `{Arith T}.

Lemma np_sum_no_element (r c : nat) (f : nat -> nat -> T) :
  r = 0 \/ c = 0 -> np_sum (tabulate r c f) = add lit_0 lit_0.
Proof.
  intros Hz. unfold np_sum.
  replace (concat (tabulate r c f)) with (@nil T); [reflexivity|].
  unfold tabulate. destruct Hz as [-> | ->]; [reflexivity|].
  simpl. induction (seq 0 r) as [|i l IH]; [reflexivity|exact IH].
Qed.

(** With fewer than two rows or columns both sums are over nothing. *)
Lemma area_degenerate (DEM : matrix T) (r c : nat) (res : T) :
  shape DEM r c -> r < 2 \/ c < 2 ->
  area DEM res = add (add lit_0 lit_0) (add lit_0 lit_0).
Proof.
  intros Hs Hd. rewrite (shape_tabulate Hs).
  unfold area, np_sqrt.
  rewrite radicand1_tabulate, radicand2_tabulate, !tabulate_map.
  rewrite !np_sum_no_element by lia. reflexivity.
Qed.
End Degenerate.

(** ** Elements of a grid *)

Section Elements.
Context {T : Type} `{Arith T}.

Lemma in_concat_tabulate (r c : nat) (f : nat -> nat -> T) (x : T) :
  In x (concat (tabulate r c f)) <-> exists i j, i < r /\ j < c /\ x = f i j.
Proof.
  unfold tabulate. rewrite in_concat. split.
  - intros [row [Hrow Hx]]. apply in_map_iff in Hrow.
    destruct Hrow as [i [<- Hi]]. apply in_map_iff in Hx.
    destruct Hx as [j [<- Hj]]. apply in_seq in Hi, Hj.
    exists i, j. repeat split; lia.
  - intros [i [j [Hi [Hj ->]]]].
    exists (map (fun j => f i j) (seq 0 c)). split.
    + apply in_map_iff. exists i. split; [reflexivity|apply in_seq; lia].
    + apply in_map_iff. exists j. split; [reflexivity|apply in_seq; lia].
Qed.

Lemma in_grid (M : matrix T) (r c : nat) (x : T) :
  shape M r c ->
  (In x (concat M) <-> exists i j, i < r /\ j < c /\ x = get M i j).
Proof.
  intros Hs. rewrite (shape_tabulate Hs) at 1. apply in_concat_tabulate.
Qed.
End Elements.

(** ** Flat grids and the projected area *)

Section ExactFlat.
Local Open Scope R_scope.
Variables (DEM : matrix R) (r c : nat) (res : R).
Hypothesis Hshape : shape DEM r c.

Lemma cell_area_ge tl tr bl br : res * res <= cell_area res tl tr bl br.
Proof.
  unfold cell_area.
  pose proof (tri_ge_flat res (tl - bl) (bl - br)).
  pose proof (tri_ge_flat res (tl - tr) (tr - br)). lra.
Qed.

Lemma cell_area_level v : cell_area res v v v v = res * res.
Proof.
  unfold cell_area. replace (v - v) with 0 by ring.
  rewrite tri_flat. field.
Qed.

Lemma cell_area_eq tl tr bl br :
  res <> 0 -> cell_area res tl tr bl br = res * res ->
  tl = bl /\ bl = br /\ tl = tr.
Proof.
  intros Hres E. unfold cell_area in E.
  pose proof (tri_ge_flat res (tl - bl) (bl - br)) as H1.
  pose proof (tri_ge_flat res (tl - tr) (tr - br)) as H2.
  assert (E1 : tri res (tl - bl) (bl - br) = res * res / 2) by lra.
  assert (E2 : tri res (tl - tr) (tr - br) = res * res / 2) by lra.
  apply tri_eq_flat in E1, E2; try assumption.
  destruct E1, E2. repeat split; lra.
Qed.

Lemma flat_area_sum : flat_area r c res = sum2 (r - 1) (c - 1) (fun _ _ => res * res).
Proof. rewrite sum2_const. unfold flat_area. ring. Qed.

Lemma area_ge_flat : flat_area r c res <= area DEM res.
Proof.
  rewrite (area_exact res Hshape), flat_area_sum.
  apply sum2_le; intros i j _ _. unfold at_cell. apply cell_area_ge.
Qed.

Lemma area_of_flat : all_equal DEM -> area DEM res = flat_area r c res.
Proof.
  intros Hflat. rewrite (area_exact res Hshape), flat_area_sum.
  apply sum2_ext; intros i j Hi Hj. unfold at_cell.
  assert (E : forall i' j', (i' < r)%nat -> (j' < c)%nat ->
                get DEM i' j' = get DEM i j).
  { intros i' j' Hi' Hj'. apply Hflat; apply (in_grid _ Hshape).
    - exists i', j'. repeat split; assumption.
    - exists i, j. repeat split; lia. }
  rewrite (E i (S j)), (E (S i) j), (E (S i) (S j)) by lia.
  apply cell_area_level.
Qed.

(** When the area is the projected one every neighbourhood is level,
    and the neighbourhoods chain every position to the first. *)
Lemma flat_of_area :
  (2 <= r)%nat -> (2 <= c)%nat -> res <> 0 ->
  area DEM res = flat_area r c res -> all_equal DEM.
Proof.
  intros Hr Hc Hres E.
  rewrite (area_exact res Hshape), flat_area_sum in E.
  assert (Hcell : forall i j, (i < r - 1)%nat -> (j < c - 1)%nat ->
            get DEM i j = get DEM (S i) j /\
            get DEM (S i) j = get DEM (S i) (S j) /\
            get DEM i j = get DEM i (S j)).
  { intros i j Hi Hj. apply cell_area_eq; [assumption|].
    symmetry.
    apply (@sum2_squeeze (r - 1) (c - 1) (fun _ _ => res * res)
             (at_cell (cell_area res) (get DEM))); try assumption.
    - intros i' j' _ _. unfold at_cell. apply cell_area_ge.
    - now symmetry. }
  assert (Hrow0 : forall j, (j < c)%nat -> get DEM 0 j = get DEM 0 0).
  { induction j as [|j IH]; intros Hj; [reflexivity|].
    destruct (Hcell 0%nat j) as [_ [_ H3]]; try lia.
    rewrite <- H3. apply IH. lia. }
  assert (Hall : forall i j, (i < r)%nat -> (j < c)%nat -> get DEM i j = get DEM 0 0).
  { induction i as [|i IH]; intros j Hi Hj; [now apply Hrow0|].
    destruct (Nat.eq_dec j 0) as [-> | Hj0].
    - destruct (Hcell i 0%nat) as [H1 _]; try lia.
      rewrite <- H1. apply IH; lia.
    - destruct j as [|j]; [contradiction|].
      destruct (Hcell i j) as [H1 [H2 _]]; try lia.
      rewrite <- H2, <- H1. apply IH; lia. }
  intros x y Hx Hy.
  apply (in_grid _ Hshape) in Hx, Hy.
  destruct Hx as [i [j [Hi [Hj ->]]]]. destruct Hy as [i' [j' [Hi' [Hj' ->]]]].
  rewrite (Hall i j), (Hall i' j') by assumption. reflexivity.
Qed.
End ExactFlat.

(** ** Raising every elevation by the same amount *)

Lemma map2_map_l_r {A B C X Y} (h : A -> B -> C) (f : X -> A) (g : Y -> B)
    (l : list X) (l' : list Y) :
  map2 h (map f l) (map g l') = map2 (fun x y => h (f x) (g y)) l l'.
Proof.
  revert l'; induction l as [|x l IH]; intros [|y l']; simpl; try reflexivity.
  now rewrite IH.
Qed.

Lemma map2_ext {A B C} (h h' : A -> B -> C) (l : list A) (l' : list B) :
  (forall x y, h x y = h' x y) -> map2 h l l' = map2 h' l l'.
Proof.
  intros E. revert l'; induction l as [|x l IH]; intros [|y l']; simpl;
    try reflexivity.
  now rewrite E, IH.
Qed.

Section Slices.
Context {T : Type}.
Variable f : T -> T.

Lemma slice_tl_map (M : matrix T) : slice_tl (map (map f) M) = map (map f) (slice_tl M).
Proof.
  unfold slice_tl. rewrite removelast_map, !map_map.
  apply map_ext; intros row. apply removelast_map.
Qed.

Lemma slice_tr_map (M : matrix T) : slice_tr (map (map f) M) = map (map f) (slice_tr M).
Proof.
  unfold slice_tr. rewrite removelast_map, !map_map.
  apply map_ext; intros row. apply tl_map.
Qed.

Lemma slice_bl_map (M : matrix T) : slice_bl (map (map f) M) = map (map f) (slice_bl M).
Proof.
  unfold slice_bl. rewrite tl_map, !map_map.
  apply map_ext; intros row. apply removelast_map.
Qed.

Lemma slice_br_map (M : matrix T) : slice_br (map (map f) M) = map (map f) (slice_br M).
Proof.
  unfold slice_br. rewrite tl_map, !map_map.
  apply map_ext; intros row. apply tl_map.
Qed.
End Slices.

Section ExactRaise.
Local Open Scope R_scope.
Variable c : R.

(** Only differences of elevations enter the segment lengths. *)
Lemma msub_raise (A B : matrix R) :
  msub (map (map (fun x => x + c)) A) (map (map (fun x => x + c)) B) = msub A B.
Proof.
  unfold msub. rewrite map2_map_l_r. apply map2_ext; intros row row'.
  rewrite map2_map_l_r. apply map2_ext; intros x y. simpl. ring.
Qed.

Lemma seg_raise (A B : matrix R) (k : R) :
  seg (map (map (fun x => x + c)) A) (map (map (fun x => x + c)) B) k = seg A B k.
Proof. unfold seg. now rewrite msub_raise. Qed.

Lemma area_raise (DEM : matrix R) (res : R) :
  area (raise_all c DEM) res = area DEM res.
Proof.
  unfold area, radicand1, radicand2, s1, s2, m1, m2, m3, m4, m5, raise_all.
  rewrite slice_tl_map, slice_tr_map, slice_bl_map, slice_br_map.
  now rewrite !seg_raise.
Qed.
End ExactRaise.

(** ** The pyramid of [test_known_pyramid] *)

Section ExactPyramid.
Local Open Scope R_scope.

Lemma tri_unit (p q n : R) :
  1 + p * p + q * q = n -> tri 1 p q = R_sqrt.sqrt n / 2.
Proof.
  intros <-. unfold tri. rewrite Rabs_R1.
  replace (1 * 1 + p * p + q * q) with (1 + p * p + q * q) by ring. field.
Qed.

Lemma pyramid_shape : shape pyramid 3 3.
Proof. split; [reflexivity|repeat constructor]. Qed.

Lemma pyramid_area : area pyramid 1 = 1 + R_sqrt.sqrt 3 + 2 * R_sqrt.sqrt 2.
Proof.
  rewrite (area_exact 1 pyramid_shape).
  unfold sum2, at_cell, cell_area, get, pyramid. simpl.
  rewrite (@tri_unit (0 - 0) (0 - 1) 2) by ring.
  rewrite (@tri_unit (0 - 1) (1 - 0) 3) by ring.
  rewrite (@tri_unit (0 - 0) (0 - 0) 1) by ring.
  rewrite (@tri_unit (1 - 0) (0 - 0) 2) by ring.
  rewrite sqrt_1. field.
Qed.

Lemma sqrt2_bounds : 1.4142 < R_sqrt.sqrt 2 < 1.41425.
Proof.
  pose proof (sqrt_pos 2) as Hp.
  pose proof (sqrt_sqrt 2 ltac:(lra)) as Hs.
  split; nra.
Qed.

Lemma sqrt3_bounds : 1.7320 < R_sqrt.sqrt 3 < 1.7321.
Proof.
  pose proof (sqrt_pos 3) as Hp.
  pose proof (sqrt_sqrt 3 ltac:(lra)) as Hs.
  split; nra.
Qed.
End ExactPyramid.

(** ** The sign of the resolution *)

Section ExactResolution.
Local Open Scope R_scope.

Lemma resolution_squared_opp (res : R) :
  resolution_squared (- res) = resolution_squared res.
Proof. unfold resolution_squared, pow2. simpl. ring. Qed.

Lemma cross_distance_squared_opp (res : R) :
  cross_distance_squared (- res) = cross_distance_squared res.
Proof. unfold cross_distance_squared, pow2. simpl. ring. Qed.

(** The resolution enters the computation through its square only. *)
Lemma area_opp (DEM : matrix R) (res : R) : area DEM (- res) = area DEM res.
Proof.
  unfold area, radicand1, radicand2, s1, s2, m1, m2, m3, m4, m5.
  now rewrite resolution_squared_opp, cross_distance_squared_opp.
Qed.

Lemma area_res_0 (DEM : matrix R) (r c : nat) :
  shape DEM r c -> area DEM 0 = 0.
Proof.
  intros Hs. rewrite (area_exact 0 Hs).
  rewrite (@sum2_ext _ _ _ (fun _ _ => 0)).
  - rewrite sum2_const. ring.
  - intros i j _ _. unfold at_cell, cell_area, tri. rewrite Rabs_R0. field.
Qed.
End ExactResolution.

(** ** Transposing a grid, replacing an element *)

Section GridOperations.
Context {T : Type} `{Arith T}.

Lemma shape_hd (M : matrix T) (r c : nat) :
  shape M r c -> 1 <= r -> length (hd [] M) = c.
Proof.
  intros [Hr Hc] Hpos. destruct M as [|row M]; simpl in *; [lia|].
  now inversion Hc.
Qed.

Lemma transpose_tabulate (M : matrix T) (r c : nat) :
  shape M r c -> 1 <= r ->
  transpose M = tabulate c r (fun j i => get M i j).
Proof.
  intros Hs Hpos. unfold transpose.
  rewrite (shape_hd Hs Hpos). destruct Hs as [-> _]. reflexivity.
Qed.

Lemma set_at_tabulate (M : matrix T) (r c i j : nat) (v : T) :
  shape M r c -> 1 <= r ->
  set_at M i j v = tabulate r c (replaced (get M) i j v).
Proof.
  intros Hs Hpos. unfold set_at.
  rewrite (shape_hd Hs Hpos). destruct Hs as [-> _]. reflexivity.
Qed.

(** [transpose] exchanges rows and columns. *)
Lemma transpose_get (M : matrix T) (r c i j : nat) :
  shape M r c -> i < r -> j < c ->
  shape (transpose M) c r /\ get (transpose M) j i = get M i j.
Proof.
  intros Hs Hi Hj.
  rewrite (transpose_tabulate Hs) by lia. split.
  - apply tabulate_shape.
  - now rewrite get_tabulate.
Qed.

(** [set_at] changes the element at (i, j) and no other. *)
Lemma set_at_get (M : matrix T) (r c i j i' j' : nat) (v : T) :
  shape M r c -> i' < r -> j' < c ->
  shape (set_at M i j v) r c
  /\ get (set_at M i j v) i' j'
     = if (Nat.eqb i' i && Nat.eqb j' j)%bool then v else get M i' j'.
Proof.
  intros Hs Hi Hj.
  rewrite (set_at_tabulate _ _ _ Hs) by lia. split.
  - apply tabulate_shape.
  - now rewrite get_tabulate.
Qed.
End GridOperations.

Section ExactTranspose.
Local Open Scope R_scope.


End ExactTranspose.

(** ** Raising one elevation *)

Section ExactRaiseAt.
Local Open Scope R_scope.
Variables (DEM : matrix R) (r c : nat) (res : R) (i j : nat) (delta : R).
Hypothesis Hshape : shape DEM r c.
Hypothesis Hdelta : 0 <= delta.
(** The raised elevation is no lower than the ones next to it. *)
Hypothesis Hpeak :
  forall i' j', (i' < r)%nat -> (j' < c)%nat -> neighbour i j i' j' ->
    get DEM i' j' <= get DEM i j.

(** Along an edge of the mesh the squared rise does not shrink. *)
Lemma rise_grows (a b a' b' : nat) :
  (a < r)%nat -> (b < c)%nat -> (a' < r)%nat -> (b' < c)%nat ->
  neighbour a b a' b' ->
  let g' := replaced (get DEM) i j (get DEM i j + delta) in
  (get DEM a b - get DEM a' b') * (get DEM a b - get DEM a' b')
  <= (g' a b - g' a' b') * (g' a b - g' a' b').
Proof.
  intros Ha Hb Ha' Hb' Hn. cbv zeta. unfold replaced.
  assert (Hsym : neighbour a' b' a b) by (unfold neighbour in *; lia).
  destruct (Nat.eqb_spec a i) as [Hai | Hai];
    destruct (Nat.eqb_spec b j) as [Hbj | Hbj];
    destruct (Nat.eqb_spec a' i) as [Hai' | Hai'];
    destruct (Nat.eqb_spec b' j) as [Hbj' | Hbj']; simpl;
    try lra; try (exfalso; unfold neighbour in Hn; lia); subst.
  all: first [ pose proof (Hpeak Ha' Hb' Hn); nra
             | pose proof (Hpeak Ha Hb Hsym); nra ].
Qed.

Lemma area_raise_at : (1 <= r)%nat -> area DEM res <= area (raise_at DEM i j delta) res.
Proof.
  intros Hpos. unfold raise_at.
  rewrite (set_at_tabulate _ _ _ Hshape Hpos), area_tabulate, (area_exact res Hshape).
  apply sum2_le; intros a b Ha Hb. unfold at_cell, cell_area.
  apply Rplus_le_compat; apply tri_mono; apply rise_grows;
    try lia; unfold neighbour; lia.
Qed.
End ExactRaiseAt.

Section ExactNonneg.
Local Open Scope R_scope.

Lemma Forall_tabulate {T} (P : T -> Prop) (r c : nat) (f : nat -> nat -> T) :
  (forall i j, (i < r)%nat -> (j < c)%nat -> P (f i j)) ->
  Forall (Forall P) (tabulate r c f).
Proof.
  intros HP. unfold tabulate. apply Forall_forall; intros row Hrow.
  apply in_map_iff in Hrow. destruct Hrow as [i [<- Hi]].
  apply Forall_forall; intros x Hx.
  apply in_map_iff in Hx. destruct Hx as [j [<- Hj]].
  apply in_seq in Hi, Hj. apply HP; lia.
Qed.

Lemma radicand1_nonneg (DEM : matrix R) (r c : nat) (res : R) :
  shape DEM r c -> Forall (Forall (fun x => 0 <= x)) (radicand1 DEM res).
Proof.
  intros Hs. rewrite (shape_tabulate Hs), radicand1_tabulate.
  apply Forall_tabulate; intros i j _ _. unfold at_cell.
  rewrite upper_exact. apply tri2_nonneg.
Qed.

Lemma radicand2_nonneg (DEM : matrix R) (r c : nat) (res : R) :
  shape DEM r c -> Forall (Forall (fun x => 0 <= x)) (radicand2 DEM res).
Proof.
  intros Hs. rewrite (shape_tabulate Hs), radicand2_tabulate.
  apply Forall_tabulate; intros i j _ _. unfold at_cell.
  rewrite lower_exact. apply tri2_nonneg.
Qed.
End ExactNonneg.

Section ExactExamples.
Local Open Scope R_scope.

Lemma level22_shape : shape level22 2 2.
Proof. split; [reflexivity|repeat constructor]. Qed.

Lemma pit22_shape : shape pit22 2 2.
Proof. split; [reflexivity|repeat constructor]. Qed.

Lemma slope23_transposed : transpose slope23 = [[0; 3]; [1; 4]; [2; 6]].
Proof. reflexivity. Qed.

Lemma pit22_raised : raise_at pit22 1 1 1 = [[0; 0]; [0; -1 + 1]].
Proof. reflexivity. Qed.

Lemma level22_all_equal : all_equal level22.
Proof.
  intros x y Hx Hy. simpl in Hx, Hy.
  repeat (destruct Hx as [<- | Hx]); repeat (destruct Hy as [<- | Hy]);
    try reflexivity; contradiction.
Qed.

Lemma level22_area (res : R) : area level22 res = res * res.
Proof.
  rewrite (area_of_flat res level22_shape level22_all_equal).
  unfold flat_area. simpl. ring.
Qed.

Lemma pit22_area : area pit22 1 = R_sqrt.sqrt 2.
Proof.
  rewrite (area_exact 1 pit22_shape).
  unfold sum2, at_cell, cell_area, get, pit22. simpl.
  rewrite (@tri_unit (0 - 0) (0 - -1) 2) by ring. field.
Qed.

Lemma pit22_raised_area : area (raise_at pit22 1 1 1) 1 = 1.
Proof.
  unfold raise_at.
  rewrite (set_at_tabulate _ _ _ pit22_shape (le_S 1 1 (le_n 1))), area_tabulate.
  unfold sum2, at_cell, cell_area, replaced, get, pit22. simpl.
  rewrite (@tri_unit (0 - 0) (0 - (-1 + 1)) 1) by ring.
  rewrite sqrt_1. field.
Qed.
End ExactExamples.

(** * Part 3: the properties of [surface_area] in exact arithmetic *)

Section ExactClaims.
Local Open Scope R_scope.

(** ** The pyramid *)

(** C1, as the code has it: on the grid [[0,0,0],[0,1,0],[0,0,0]] at
    resolution 1.0 [surface_area] returns 1 + sqrt 3 + 2 * sqrt 2, about
    5.560.  The mesh cuts every neighbourhood along the same diagonal,
    so two of the four neighbourhoods do not follow the faces of the
    pyramid, and the result lies between 0.096 and 0.097 below
    4 * sqrt 2. *)
Theorem pyramid_result :
  surface_area pyramid 1 = Returned (1 + R_sqrt.sqrt 3 + 2 * R_sqrt.sqrt 2)
  /\ 0.096 < 4 * R_sqrt.sqrt 2 - (1 + R_sqrt.sqrt 3 + 2 * R_sqrt.sqrt 2) < 0.097.
Proof.
  split.
  - rewrite ?surface_area_returns. f_equal. apply pyramid_area.
  - pose proof sqrt2_bounds. pose proof sqrt3_bounds. lra.
Qed.

(** C1 as stated fails: the value returned for the pyramid is not within
    1e-3 of 4 * sqrt 2. *)
Lemma pyramid_not_within_tolerance :
  ~ exists a, surface_area pyramid 1 = Returned a
              /\ Rabs (a - 4 * R_sqrt.sqrt 2) <= 1 / 1000.
Proof.
  intros [a [Ha Hclose]]. apply Returned_inj in Ha.
  rewrite <- Ha, pyramid_area in Hclose.
  pose proof sqrt2_bounds. pose proof sqrt3_bounds.
  rewrite Rabs_left in Hclose; lra.
Qed.

(** ** Flat grids and the projected area *)



(** C3, in exact arithmetic: on a grid of at least 2 x 2 elevations, at
    every resolution r > 0, the area [surface_area] returns is at least
    the flat projected area (rows - 1) * (cols - 1) * r^2, hence at least
    0, and it equals the projected area exactly when all the elevations
    are equal.  In binary64 the result can be below the projected area,
    and NaN ([projected_bound_fails_binary64]). *)
Theorem area_at_least_projected (DEM : matrix R) (r c : nat) (res : R) :
  shape DEM r c -> (2 <= r)%nat -> (2 <= c)%nat -> 0 < res ->
  exists a, surface_area DEM res = Returned a
    /\ INR (r - 1) * INR (c - 1) * res ^ 2 <= a
    /\ 0 <= a
    /\ (a = INR (r - 1) * INR (c - 1) * res ^ 2 <-> all_equal DEM).
Proof.
  intros Hs Hr Hc Hres. exists (area DEM res).
  assert (Hflat : INR (r - 1) * INR (c - 1) * res ^ 2 = flat_area r c res)
    by (unfold flat_area; ring).
  rewrite Hflat.
  pose proof (area_ge_flat res Hs) as Hge.
  assert (0 <= flat_area r c res).
  { unfold flat_area. pose proof (pos_INR (r - 1)). pose proof (pos_INR (c - 1)).
    assert (0 <= INR (r - 1) * INR (c - 1)) by nra. nra. }
  repeat split; try lra.
  - intros E. apply (flat_of_area (res := res) Hs Hr Hc); [lra|assumption].
  - now apply area_of_flat.
Qed.

Lemma area_at_least_projected_witness :
  exists a, surface_area slope23 1 = Returned a
    /\ INR (2 - 1) * INR (3 - 1) * 1 ^ 2 <= a
    /\ 0 <= a
    /\ (a = INR (2 - 1) * INR (3 - 1) * 1 ^ 2 <-> all_equal slope23).
Proof.
  apply (@area_at_least_projected slope23 2 3 1).
  - split; [reflexivity|repeat constructor].
  - lia.
  - lia.
  - lra.
Defined.

(** ** Raising one elevation *)

(** C6, as the formulas have it in exact arithmetic: increasing one
    elevation by delta > 0 does not decrease the result when that
    elevation is at least as high as the elevations next to it in its row
    and in its column.  In binary64 rounding can lower the result even
    then ([raise_peak_shrinks_binary64]). *)
Theorem raise_peak_monotone (DEM : matrix R) (r c : nat) (res : R)
    (i j : nat) (delta : R) :
  shape DEM r c -> (2 <= r)%nat -> (2 <= c)%nat -> 0 < res ->
  (i < r)%nat -> (j < c)%nat -> 0 < delta ->
  (forall i' j', (i' < r)%nat -> (j' < c)%nat -> neighbour i j i' j' ->
     get DEM i' j' <= get DEM i j) ->
  exists a b, surface_area DEM res = Returned a
              /\ surface_area (raise_at DEM i j delta) res = Returned b
              /\ a <= b.
Proof.
  intros Hs Hr _ _ _ _ Hd Hpeak.
  exists (area DEM res), (area (raise_at DEM i j delta) res).
  repeat split. apply (area_raise_at res Hs); [lra|exact Hpeak|lia].
Qed.

Lemma raise_peak_monotone_witness :
  exists a b, surface_area level22 1 = Returned a
              /\ surface_area (raise_at level22 0 0 1) 1 = Returned b
              /\ a <= b.
Proof.
  apply (@raise_peak_monotone level22 2 2 1 0 0 1).
  - split; [reflexivity|repeat constructor].
  - lia.
  - lia.
  - lra.
  - lia.
  - lia.
  - lra.
  - intros i' j' Hi Hj _.
    destruct i' as [|[|i']]; [| |lia];
      (destruct j' as [|[|j']]; [| |lia]); unfold get; simpl; lra.
Defined.

(** C6 as stated fails: raising the pit of [[0,0],[0,-1]] by 1 levels the
    grid, and the result drops from sqrt 2 to 1. *)
Lemma raise_can_shrink_area :
  exists a b, surface_area pit22 1 = Returned a
              /\ surface_area (raise_at pit22 1 1 1) 1 = Returned b
              /\ b < a.
Proof.
  exists (R_sqrt.sqrt 2), 1. rewrite ?surface_area_returns.
  rewrite pit22_area, pit22_raised_area.
  repeat split. pose proof sqrt2_bounds. lra.
Qed.

(** ** The radicands *)

(** C8, as the code has it: [surface_area] hands both radicands to
    [np.sqrt] as they are, with no clamp; in exact arithmetic every
    element of both is >= 0, for every grid and every resolution. *)
Theorem radicands_nonnegative_exact (DEM : matrix R) (r c : nat) (res : R) :
  shape DEM r c ->
  area DEM res
  = np_sum (np_sqrt (radicand1 DEM res)) + np_sum (np_sqrt (radicand2 DEM res))
  /\ Forall (Forall (fun x => 0 <= x)) (radicand1 DEM res)
  /\ Forall (Forall (fun x => 0 <= x)) (radicand2 DEM res).
Proof.
  intros Hs. split; [reflexivity|]. split.
  - apply (radicand1_nonneg res Hs).
  - apply (radicand2_nonneg res Hs).
Qed.

Lemma radicands_nonnegative_exact_witness :
  area pyramid 1
  = np_sum (np_sqrt (radicand1 pyramid 1)) + np_sum (np_sqrt (radicand2 pyramid 1))
  /\ Forall (Forall (fun x => 0 <= x)) (radicand1 pyramid 1)
  /\ Forall (Forall (fun x => 0 <= x)) (radicand2 pyramid 1).
Proof.
  apply (@radicands_nonnegative_exact pyramid 3 3 1).
  split; [reflexivity|repeat constructor].
Defined.

(** ** Symmetries *)

(** C9, in exact arithmetic: adding a constant c to every elevation
    leaves the result of [surface_area] unchanged, for every grid and
    every resolution.  In binary64 the additions grid + c round and the
    result can change ([raise_all_changes_binary64]). *)
Theorem raise_all_invariant (DEM : matrix R) (res c : R) :
  surface_area (raise_all c DEM) res = surface_area DEM res.
Proof. rewrite ?surface_area_returns. f_equal. apply area_raise. Qed.



(** ** The algorithm and its scaling *)

(** The algorithm of the spec: [surface_area] returns the sum, over the
    (rows - 1) * (cols - 1) neighbourhoods, of the areas of the two
    triangles TL, BL, BR and TL, TR, BR, each with two legs of horizontal
    length r: |r|/2 * sqrt (r^2 + p^2 + q^2) for rises p and q. *)
Theorem surface_area_sum_of_triangles (DEM : matrix R) (r c : nat) (res : R) :
  shape DEM r c ->
  surface_area DEM res
  = Returned (sum2 (r - 1) (c - 1) (at_cell (cell_area res) (get DEM))).
Proof. intros Hs. rewrite ?surface_area_returns. f_equal. now apply area_exact. Qed.

Lemma surface_area_sum_of_triangles_witness :
  surface_area pyramid 1
  = Returned (sum2 (3 - 1) (3 - 1) (at_cell (cell_area 1) (get pyramid))).
Proof.
  apply (@surface_area_sum_of_triangles pyramid 3 3 1).
  split; [reflexivity|repeat constructor].
Defined.

(** The scale property of the spec: on a grid whose elevations are all
    equal, doubling the resolution multiplies the result by 4. *)
Theorem flat_grid_scale (DEM : matrix R) (r c : nat) (res : R) :
  shape DEM r c -> all_equal DEM ->
  exists a, surface_area DEM res = Returned a
            /\ surface_area DEM (2 * res) = Returned (4 * a).
Proof.
  intros Hs Hflat. exists (area DEM res). rewrite ?surface_area_returns.
  split; [reflexivity|]. f_equal.
  rewrite !(area_of_flat _ Hs Hflat). unfold flat_area. ring.
Qed.

Lemma flat_grid_scale_witness :
  exists a, surface_area level22 3 = Returned a
            /\ surface_area level22 (2 * 3) = Returned (4 * a).
Proof.
  apply (@flat_grid_scale level22 2 2 3).
  - split; [reflexivity|repeat constructor].
  - intros x y Hx Hy. simpl in Hx, Hy.
    repeat (destruct Hx as [<- | Hx]); repeat (destruct Hy as [<- | Hy]);
      try reflexivity; contradiction.
Defined.
End ExactClaims.

(** * Part 4: binary64 *)

(** ** IEEE operations on values that are not finite *)

Lemma SF64sub_nonfinite x y :
  sf_nonfinite x = true \/ sf_nonfinite y = true ->
  sf_nonfinite (SF64sub x y) = true.
Proof.
  intros [Hx | Hy].
  - destruct x as [[]|[]| |[] mx ex]; try discriminate;
      destruct y as [[]|[]| |[] my ey]; reflexivity.
  - destruct y as [[]|[]| |[] my ey]; try discriminate;
      destruct x as [[]|[]| |[] mx ex]; reflexivity.
Qed.

Lemma SF64mul_self_top x : sf_nonfinite x = true -> sf_top (SF64mul x x) = true.
Proof. destruct x as [[]|[]| |sx mx ex]; try discriminate; reflexivity. Qed.

Lemma SF64mul_pos_top m e y :
  sf_top y = true -> sf_top (SF64mul (S754_finite false m e) y) = true.
Proof. destruct y as [[]|[]| |[] my ey]; try discriminate; reflexivity. Qed.

(** NaN or +infinity plus anything is NaN or +infinity: adding -infinity
    to +infinity gives NaN. *)
Lemma SF64add_top_l x y : sf_top x = true -> sf_top (SF64add x y) = true.
Proof.
  destruct x as [[]|[]| |sx mx ex]; try discriminate;
    destruct y as [[]|[]| |sy my ey]; reflexivity.
Qed.

Lemma SF64add_top_r x y : sf_top y = true -> sf_top (SF64add x y) = true.
Proof.
  destruct y as [[]|[]| |sy my ey]; try discriminate;
    destruct x as [[]|[]| |sx mx ex]; reflexivity.
Qed.

Lemma SF64sqrt_top x : sf_top x = true -> sf_top (SF64sqrt x) = true.
Proof. destruct x as [[]|[]| |sx mx ex]; try discriminate; reflexivity. Qed.

Lemma SF64sub_top_top x y :
  sf_top x = true -> sf_top y = true -> SF64sub x y = S754_nan.
Proof.
  destruct x as [[]|[]| |sx mx ex]; try discriminate;
    destruct y as [[]|[]| |sy my ey]; try discriminate; reflexivity.
Qed.

Lemma SF64mul_nan_l y : SF64mul S754_nan y = S754_nan.
Proof. reflexivity. Qed.
Lemma SF64mul_nan_r x : SF64mul x S754_nan = S754_nan.
Proof. destruct x; reflexivity. Qed.
Lemma SF64add_nan_l y : SF64add S754_nan y = S754_nan.
Proof. reflexivity. Qed.
Lemma SF64add_nan_r x : SF64add x S754_nan = S754_nan.
Proof. destruct x; reflexivity. Qed.

Lemma Prim2SF_half : Prim2SF 0.5 = S754_finite false 4503599627370496 (-53).
Proof. reflexivity. Qed.

Lemma Prim2SF_two : Prim2SF 2 = S754_finite false 4503599627370496 (-51).
Proof. reflexivity. Qed.

Lemma Prim2SF_infinity : Prim2SF infinity = S754_infinity false.
Proof. reflexivity. Qed.

Lemma is_nan_spec x : is_nan x = true <-> Prim2SF x = S754_nan.
Proof.
  unfold is_nan. rewrite eqb_spec. unfold SFeqb.
  destruct (Prim2SF x) as [[]|[]| |[] m e]; simpl;
    try (split; [discriminate|discriminate]); try (split; reflexivity).
  all: rewrite Z.compare_refl; fold (Pos.compare m m);
    rewrite Pos.compare_refl; simpl; split; discriminate.
Qed.

Lemma is_infinity_spec x :
  is_infinity x = true -> exists s, Prim2SF x = S754_infinity s.
Proof.
  unfold is_infinity. rewrite eqb_spec, abs_spec, Prim2SF_infinity. unfold SFeqb.
  destruct (Prim2SF x) as [s|s| |s m e]; simpl; try discriminate.
  intros _. now exists s.
Qed.

(** ** The cells of [surface_area] in binary64 *)

Section Binary64Cells.
Context {L : Libm}.
Implicit Types (k p q a b c s res tl tr bl br : float).

Lemma edge_spec k p q :
  Prim2SF (edge k p q)
  = SF64sqrt (SF64add (SF64mul (SF64sub (Prim2SF p) (Prim2SF q))
                               (SF64sub (Prim2SF p) (Prim2SF q)))
                      (Prim2SF k)).
Proof.
  unfold edge, pow_half, pow2. simpl.
  now rewrite sqrt_spec, add_spec, mul_spec, sub_spec.
Qed.

(** A segment that ends on a non-finite elevation has length NaN or
    +infinity, whatever its squared horizontal distance [k]. *)
Lemma edge_top k p q :
  sf_nonfinite (Prim2SF p) = true \/ sf_nonfinite (Prim2SF q) = true ->
  sf_top (Prim2SF (edge k p q)) = true.
Proof.
  intros Hpq. rewrite edge_spec.
  apply SF64sqrt_top, SF64add_top_l.
  apply SF64mul_self_top, SF64sub_nonfinite, Hpq.
Qed.

(** So has a segment whose squared horizontal distance is NaN or
    +infinity. *)
Lemma edge_top_k k p q :
  sf_top (Prim2SF k) = true -> sf_top (Prim2SF (edge k p q)) = true.
Proof.
  intros Hk. rewrite edge_spec. now apply SF64sqrt_top, SF64add_top_r.
Qed.

Lemma semi_top a b c :
  sf_top (Prim2SF a) = true \/ sf_top (Prim2SF b) = true ->
  sf_top (Prim2SF (semi a b c)) = true.
Proof.
  intros Hab. unfold semi. simpl.
  rewrite mul_spec, !add_spec, Prim2SF_half.
  apply SF64mul_pos_top, SF64add_top_l.
  destruct Hab as [Ht | Ht].
  - now apply SF64add_top_l.
  - now apply SF64add_top_r.
Qed.

(** infinity - infinity: the radicand of a triangle with a side that is
    NaN or +infinity is NaN. *)
Lemma heron_nan s a b c :
  sf_top (Prim2SF s) = true ->
  sf_top (Prim2SF a) = true \/ sf_top (Prim2SF b) = true ->
  Prim2SF (heron s a b c) = S754_nan.
Proof.
  intros Hs Hab. unfold heron. simpl.
  rewrite !mul_spec, !sub_spec.
  destruct Hab as [Ht | Ht].
  - rewrite (SF64sub_top_top _ _ Hs Ht).
    now rewrite SF64mul_nan_r, !SF64mul_nan_l.
  - rewrite (SF64sub_top_top (Prim2SF s) (Prim2SF b) Hs Ht).
    now rewrite SF64mul_nan_r, SF64mul_nan_l.
Qed.

Lemma upper_nan res tl tr bl br :
  sf_nonfinite (Prim2SF tl) = true \/ sf_nonfinite (Prim2SF bl) = true
  \/ sf_nonfinite (Prim2SF br) = true ->
  Prim2SF (upper res tl tr bl br) = S754_nan.
Proof.
  intros Hc. unfold upper.
  assert (Hside : sf_top (Prim2SF (edge (cross_distance_squared res) tl br)) = true
                  \/ sf_top (Prim2SF (edge (resolution_squared res) bl br)) = true).
  { destruct Hc as [Hc | [Hc | Hc]].
    - left. apply edge_top; auto.
    - right. apply edge_top; auto.
    - left. apply edge_top; auto. }
  apply heron_nan; [|exact Hside].
  now apply semi_top.
Qed.

Lemma lower_nan res tl tr bl br :
  sf_nonfinite (Prim2SF tl) = true \/ sf_nonfinite (Prim2SF tr) = true
  \/ sf_nonfinite (Prim2SF br) = true ->
  Prim2SF (lower res tl tr bl br) = S754_nan.
Proof.
  intros Hc. unfold lower.
  assert (Hside : sf_top (Prim2SF (edge (cross_distance_squared res) tl br)) = true
                  \/ sf_top (Prim2SF (edge (resolution_squared res) tr br)) = true).
  { destruct Hc as [Hc | [Hc | Hc]].
    - left. apply edge_top; auto.
    - right. apply edge_top; auto.
    - left. apply edge_top; auto. }
  apply heron_nan; [|exact Hside].
  now apply semi_top.
Qed.

Lemma non_finite_spec x : non_finite x -> sf_nonfinite (Prim2SF x) = true.
Proof.
  intros [Hn | Hi].
  - apply is_nan_spec in Hn. now rewrite Hn.
  - apply is_infinity_spec in Hi. destruct Hi as [s ->]. reflexivity.
Qed.

(** *** A NaN among the summands makes the sum NaN, in whatever order
    numpy adds them *)

Lemma add_nan_l (x y : float) :
  Prim2SF x = S754_nan -> Prim2SF (add x y) = S754_nan.
Proof. intros Hx. simpl. rewrite add_spec, Hx. apply SF64add_nan_l. Qed.

Lemma add_nan_r (x y : float) :
  Prim2SF y = S754_nan -> Prim2SF (add x y) = S754_nan.
Proof. intros Hy. simpl. rewrite add_spec, Hy. apply SF64add_nan_r. Qed.

Lemma sum_loop_nan (l : list float) (acc : float) :
  Prim2SF acc = S754_nan -> Prim2SF (sum_loop acc l) = S754_nan.
Proof.
  unfold sum_loop.
  revert acc; induction l as [|x l IH]; intros acc Hacc; [exact Hacc|].
  simpl fold_left. apply IH. now apply add_nan_l.
Qed.

Lemma sum_loop_nan_in (l : list float) (acc : float) :
  has_nan l -> Prim2SF (sum_loop acc l) = S754_nan.
Proof.
  intros [x [Hin Hx]].
  revert acc; induction l as [|y l IH]; intros acc; [contradiction|].
  destruct Hin as [-> | Hin].
  - apply (sum_loop_nan l). now apply add_nan_r.
  - now apply IH.
Qed.

Lemma has_nan_app (l l' : list float) :
  has_nan (l ++ l') <-> has_nan l \/ has_nan l'.
Proof.
  unfold has_nan. split.
  - intros [x [Hin Hx]]. apply in_app_or in Hin.
    destruct Hin as [Hin | Hin]; [left|right]; now exists x.
  - intros [[x [Hin Hx]] | [x [Hin Hx]]]; exists x; split; auto;
      apply in_or_app; auto.
Qed.

Lemma has_nan_map2 (r g : list float) :
  length r = length g -> has_nan r \/ has_nan g -> has_nan (map2 add r g).
Proof.
  revert g; induction r as [|x r IH]; intros [|y g] E Hn; simpl in E;
    try discriminate.
  - destruct Hn as [[z [[] _]] | [z [[] _]]].
  - assert (Hcase : Prim2SF x = S754_nan \/ Prim2SF y = S754_nan
                    \/ has_nan r \/ has_nan g).
    { destruct Hn as [[z [[<- | Hin] Hz]] | [z [[<- | Hin] Hz]]]; auto.
      - right; right; left. now exists z.
      - right; right; right. now exists z. }
    destruct Hcase as [Hx | [Hy | Hrest]].
    + exists (add x y). split; [now left|now apply add_nan_l].
    + exists (add x y). split; [now left|now apply add_nan_r].
    + destruct (IH g) as [z [Hin Hz]]; [congruence|exact Hrest|].
      exists z. split; [now right|exact Hz].
Qed.

Lemma add_groups_nan (k : nat) (r l : list float) :
  length r = 8 -> 8 * k <= length l -> has_nan r \/ has_nan l ->
  (has_nan (fst (add_groups k r l)) \/ has_nan (snd (add_groups k r l)))
  /\ length (fst (add_groups k r l)) = 8.
Proof.
  revert r l; induction k as [|k IH]; intros r l Hr Hl Hn.
  - simpl. split; [exact Hn|exact Hr].
  - cbn [add_groups].
    assert (H8 : length (firstn 8 l) = 8) by (rewrite length_firstn; lia).
    apply IH.
    + rewrite length_map2; congruence.
    + rewrite length_skipn. lia.
    + destruct Hn as [Hn | Hn].
      * left. apply has_nan_map2; [congruence|now left].
      * rewrite <- (firstn_skipn 8 l) in Hn. apply has_nan_app in Hn.
        destruct Hn as [Hn | Hn]; [left|now right].
        apply has_nan_map2; [congruence|now right].
Qed.

Lemma sum_accumulators_nan (r : list float) :
  length r = 8 -> has_nan r -> Prim2SF (sum_accumulators r) = S754_nan.
Proof.
  intros E [x [Hin Hx]].
  do 8 (destruct r as [|? r]; [discriminate E|]).
  destruct r; [|discriminate E]. cbn [sum_accumulators].
  simpl in Hin.
  repeat (destruct Hin as [<- | Hin];
          [auto 6 using add_nan_l, add_nan_r|]).
  contradiction.
Qed.

Lemma sum_block_nan (l : list float) :
  8 <= length l -> has_nan l -> Prim2SF (sum_block l) = S754_nan.
Proof.
  intros Hl Hn. unfold sum_block.
  assert (H8 : length (firstn 8 l) = 8) by (rewrite length_firstn; lia).
  assert (Hk : 8 * (length l / 8 - 1) <= length (skipn 8 l)).
  { rewrite length_skipn.
    pose proof (Nat.Div0.mul_div_le (length l) 8). lia. }
  assert (Hn' : has_nan (firstn 8 l) \/ has_nan (skipn 8 l)).
  { apply has_nan_app. now rewrite firstn_skipn. }
  destruct (@add_groups_nan (length l / 8 - 1) (firstn 8 l) (skipn 8 l) H8 Hk Hn')
    as [Hcase Hlen].
  destruct (add_groups (length l / 8 - 1) (firstn 8 l) (skipn 8 l)) as [r rest].
  simpl fst in *; simpl snd in *.
  destruct Hcase as [Hr | Hrest].
  - apply sum_loop_nan. now apply sum_accumulators_nan.
  - now apply sum_loop_nan_in.
Qed.

Lemma pairwise_sum_nan (fuel : nat) (l : list float) :
  has_nan l -> Prim2SF (pairwise_sum fuel l) = S754_nan.
Proof.
  revert l; induction fuel as [|fuel IH]; intros l Hn; cbn [pairwise_sum];
    destruct (Nat.ltb_spec (length l) 8) as [H8|H8];
    try (now apply sum_loop_nan_in);
    destruct (Nat.leb_spec (length l) 128) as [Hb|Hb];
    try (now apply sum_block_nan).
  set (n2 := length l / 2 - (length l / 2) mod 8).
  rewrite <- (firstn_skipn n2 l) in Hn. apply has_nan_app in Hn.
  destruct Hn as [Hn | Hn].
  - apply add_nan_l. now apply IH.
  - apply add_nan_r. now apply IH.
Qed.

Lemma np_sum_sqrt_nan (r c : nat) (f : nat -> nat -> float) (i j : nat) :
  i < r -> j < c -> Prim2SF (f i j) = S754_nan ->
  Prim2SF (np_sum (np_sqrt (tabulate r c f))) = S754_nan.
Proof.
  intros Hi Hj Hnan. unfold np_sum, np_sqrt. rewrite tabulate_map.
  apply add_nan_r, pairwise_sum_nan.
  exists (sqrt (f i j)). split.
  - apply in_concat_tabulate. exists i, j. repeat split; assumption.
  - simpl. rewrite sqrt_spec, Hnan. reflexivity.
Qed.

(** With a non-finite elevation in a grid of at least 2 x 2, [area] is NaN. *)
Lemma area_nan (DEM : matrix float) (r c : nat) (res : float) (i j : nat) :
  shape DEM r c -> 2 <= r -> 2 <= c -> i < r -> j < c ->
  non_finite (get DEM i j) ->
  Prim2SF (area DEM res) = S754_nan.
Proof.
  intros Hs Hr Hc Hi Hj Hbad. apply non_finite_spec in Hbad.
  rewrite (shape_tabulate Hs). unfold area.
  rewrite radicand1_tabulate, radicand2_tabulate.
  set (a := if Nat.ltb i (r - 1) then i else i - 1).
  set (b := if Nat.ltb j (c - 1) then j else j - 1).
  assert (Ha : a < r - 1 /\ (i = a \/ i = S a)).
  { unfold a. destruct (Nat.ltb_spec i (r - 1)); lia. }
  assert (Hb : b < c - 1 /\ (j = b \/ j = S b)).
  { unfold b. destruct (Nat.ltb_spec j (c - 1)); lia. }
  destruct Ha as [Ha Hia], Hb as [Hb Hjb].
  destruct Hia as [Hia | Hia], Hjb as [Hjb | Hjb]; rewrite Hia, Hjb in Hbad.
  - apply add_nan_l.
    apply (@np_sum_sqrt_nan _ _ (at_cell (upper res) (get DEM)) a b Ha Hb).
    unfold at_cell. apply upper_nan. auto.
  - apply add_nan_r.
    apply (@np_sum_sqrt_nan _ _ (at_cell (lower res) (get DEM)) a b Ha Hb).
    unfold at_cell. apply lower_nan. auto.
  - apply add_nan_l.
    apply (@np_sum_sqrt_nan _ _ (at_cell (upper res) (get DEM)) a b Ha Hb).
    unfold at_cell. apply upper_nan. auto.
  - apply add_nan_l.
    apply (@np_sum_sqrt_nan _ _ (at_cell (upper res) (get DEM)) a b Ha Hb).
    unfold at_cell. apply upper_nan. auto.
Qed.

(** *** [resolution ** 2.] *)

Lemma is_infinity_true x (sign : bool) :
  Prim2SF x = S754_infinity sign -> is_infinity x = true.
Proof.
  intros Hx. unfold is_infinity.
  rewrite eqb_spec, abs_spec, Hx. reflexivity.
Qed.

(** A NaN or infinite resolution is settled by [float_pow] itself:
    nothing is raised, and the square is NaN or +infinity. *)
Lemma float_pow2_special_non_finite res :
  sf_nonfinite (Prim2SF res) = true ->
  exists v, float_pow2_special res = Some v /\ sf_top (Prim2SF v) = true.
Proof.
  intros Hres. unfold float_pow2_special.
  destruct (is_nan res) eqn:En.
  - exists res. split; [reflexivity|].
    apply is_nan_spec in En. now rewrite En.
  - destruct (Prim2SF res) as [s|s| |s m e] eqn:Er; try discriminate.
    + rewrite (is_infinity_true res Er). exists (abs res).
      split; [reflexivity|]. now rewrite abs_spec, Er.
    + assert (Ht : is_nan res = true) by now apply is_nan_spec.
      congruence.
Qed.

Lemma float_pow2_non_finite res :
  sf_nonfinite (Prim2SF res) = true ->
  float_pow2_raises res = false /\ sf_top (Prim2SF (float_pow2 res)) = true.
Proof.
  intros Hres.
  destruct (float_pow2_special_non_finite res Hres) as [v [Ev Hv]].
  simpl. unfold py_float_pow2_raises, py_float_pow2. rewrite Ev. auto.
Qed.

Lemma abs_opp x : abs (- x) = abs x.
Proof.
  apply Prim2SF_inj. rewrite !abs_spec, opp_spec.
  destruct (Prim2SF x) as [s|s| |s m e]; reflexivity.
Qed.

Lemma eqb_opp_zero x : (- x =? 0)%float = (x =? 0)%float.
Proof.
  rewrite !eqb_spec, opp_spec.
  destruct (Prim2SF x) as [s|s| |s m e]; try reflexivity;
    destruct s; reflexivity.
Qed.

Lemma is_nan_opp x : is_nan (- x) = is_nan x.
Proof.
  destruct (is_nan x) eqn:En.
  - apply is_nan_spec. apply is_nan_spec in En.
    now rewrite opp_spec, En.
  - destruct (is_nan (- x)) eqn:En'; [|reflexivity].
    apply is_nan_spec in En'. rewrite opp_spec in En'.
    assert (Ht : is_nan x = true).
    { apply is_nan_spec. destruct (Prim2SF x); try discriminate; reflexivity. }
    congruence.
Qed.

Lemma opp_nan x : is_nan x = true -> (- x)%float = x.
Proof.
  intros En. apply is_nan_spec in En.
  apply Prim2SF_inj. now rewrite opp_spec, En.
Qed.

(** [float_pow] works on the absolute value: the sign of the resolution
    is lost before C's [pow] is called. *)
Lemma float_pow2_special_opp res :
  float_pow2_special (- res) = float_pow2_special res.
Proof.
  unfold float_pow2_special, is_infinity.
  rewrite is_nan_opp, abs_opp, eqb_opp_zero.
  destruct (is_nan res) eqn:En; [|reflexivity].
  now rewrite opp_nan.
Qed.

Lemma float_pow2_opp res :
  float_pow2 (- res)%float = float_pow2 res
  /\ float_pow2_raises (- res)%float = float_pow2_raises res.
Proof.
  simpl. unfold py_float_pow2, py_float_pow2_raises.
  now rewrite float_pow2_special_opp, abs_opp.
Qed.

(** The sign of the resolution changes nothing, bit for bit. *)
Lemma surface_area_opp (DEM : matrix float) res :
  surface_area DEM (- res)%float = surface_area DEM res.
Proof.
  destruct (float_pow2_opp res) as [Ev Er].
  unfold surface_area, area, radicand1, radicand2, s1, s2, m1, m2, m3, m4, m5,
    resolution_squared, cross_distance_squared.
  now rewrite Ev, Er.
Qed.

(** A grid with no neighbourhood: 0.0, unless the square overflows. *)
Lemma surface_area_degenerate (DEM : matrix float) (r c : nat) res :
  shape DEM r c -> r < 2 \/ c < 2 ->
  surface_area DEM res
  = if float_pow2_raises res then Raised OverflowError else Returned 0%float.
Proof.
  intros Hs Hd. unfold surface_area.
  destruct (float_pow2_raises res); [reflexivity|].
  f_equal. rewrite (area_degenerate res Hs Hd). reflexivity.
Qed.

(** A NaN or infinite resolution makes every radicand NaN. *)
Lemma upper_nan_resolution res tl tr bl br :
  sf_nonfinite (Prim2SF res) = true ->
  Prim2SF (upper res tl tr bl br) = S754_nan.
Proof.
  intros Hres. unfold upper.
  assert (Hx : sf_top (Prim2SF (cross_distance_squared res)) = true).
  { unfold cross_distance_squared.
    destruct (float_pow2_non_finite res Hres) as [_ Hv].
    simpl mul. simpl lit_2. rewrite mul_spec, Prim2SF_two.
    now apply SF64mul_pos_top. }
  apply heron_nan.
  - apply semi_top. left. now apply edge_top_k.
  - left. now apply edge_top_k.
Qed.
End Binary64Cells.

(** * Part 5: the properties of [surface_area] in binary64 *)

Section Binary64Claims.
Context {L : Libm}.
Local Open Scope float_scope.

(** C5, as the code has it: [surface_area] does not look for NaN or
    infinite elevations and never rejects a grid for them.  On a grid of
    at least 2 x 2 elevations one of which is NaN or infinite, it returns
    NaN at every resolution whose square [resolution ** 2.] is in range;
    when that square overflows, line 44 raises [OverflowError], whatever
    the grid.  This holds for every C library. *)
Theorem non_finite_grid_returns_nan (DEM : matrix float) (r c : nat) (res : float) :
  shape DEM r c -> (2 <= r)%nat -> (2 <= c)%nat ->
  (exists x, In x (concat DEM) /\ non_finite x) ->
  (py_float_pow2_raises res = false
   /\ exists a, surface_area DEM res = Returned a /\ is_nan a = true)
  \/ (py_float_pow2_raises res = true
      /\ surface_area DEM res = Raised OverflowError).
Proof.
  intros Hs Hr Hc [x [Hin Hbad]].
  unfold surface_area. simpl float_pow2_raises.
  destruct (py_float_pow2_raises res); [right; split; reflexivity|left].
  split; [reflexivity|].
  exists (area DEM res). split; [reflexivity|].
  apply (in_grid _ Hs) in Hin. destruct Hin as [i [j [Hi [Hj ->]]]].
  apply is_nan_spec. now apply (area_nan res Hs Hr Hc Hi Hj).
Qed.

(** In binary64 a grid with no neighbourhood gives exactly 0.0 even at a
    resolution that is NaN or infinite: [float_pow] raises nothing for
    these, and both sums are over no element. *)
Theorem degenerate_binary64 (DEM : matrix float) (r c : nat) (res : float) :
  shape DEM r c -> (r < 2)%nat \/ (c < 2)%nat -> non_finite res ->
  surface_area DEM res = Returned 0.
Proof.
  intros Hs Hd Hres. apply non_finite_spec in Hres.
  rewrite (surface_area_degenerate res Hs Hd).
  destruct (float_pow2_non_finite res Hres) as [-> _]. reflexivity.
Qed.
End Binary64Claims.

Section Binary64Examples.
Local Open Scope float_scope.

Lemma non_finite_grid_returns_nan_witness :
  (py_float_pow2_raises 1 = false
   /\ exists a, surface_area nan64 1 = Returned a /\ is_nan a = true)
  \/ (py_float_pow2_raises 1 = true
      /\ surface_area nan64 1 = Raised OverflowError).
Proof.
  apply (@non_finite_grid_returns_nan libm_rounded nan64 2 2 1).
  - split; [reflexivity|repeat constructor].
  - lia.
  - lia.
  - exists nan. split; [simpl; now left|left; reflexivity].
Defined.

(** C5 as stated fails: the grid [[nan,0],[0,0]] is not rejected, NaN is
    returned. *)
Lemma nan_grid_not_rejected :
  In nan (concat nan64) /\ is_nan nan = true
  /\ surface_area nan64 1 = Returned nan
  /\ surface_area nan64 1 <> Raised ValueError.
Proof.
  split; [simpl; now left|]. split; [reflexivity|].
  split; [vm_compute; reflexivity|discriminate].
Qed.

Lemma degenerate_binary64_witness :
  surface_area [[1; nan; 3]] infinity = Returned 0.
Proof.
  apply (@degenerate_binary64 libm_rounded [[1; nan; 3]] 1 3 infinity).
  - split; [reflexivity|repeat constructor].
  - left. lia.
  - right. reflexivity.
Defined.

(** The triangle TL, BL, BR of the grid [[0,0],[3e7,9.8e7]] at
    resolution 1: the sides round to 30000000.000000015 (m2), 68000000
    (m5) and 98000000.000000015 (m3), their half sum rounds to 98000000,
    below m3. *)
Lemma steep64_sides :
  m2 steep64 1 = [[0x1.c9c3800000004p+24]]
  /\ m5 steep64 1 = [[68000000]]
  /\ m3 steep64 1 = [[0x1.75d7200000001p+26]]
  /\ s1 steep64 1 = [[98000000]]
  /\ (98000000 <? 0x1.75d7200000001p+26) = true.
Proof. repeat split; vm_compute; reflexivity. Qed.

(** C8 as stated fails: on the grid [[0,0],[3e7,9.8e7]] at resolution 1
    the first radicand is negative; [np.sqrt] is applied to it and the
    result is NaN. *)
Lemma radicand_negative_binary64 :
  radicand1 steep64 1 = [[-2979040145874023]]
  /\ (-2979040145874023 <? 0) = true
  /\ surface_area steep64 1 = Returned nan.
Proof. repeat split; vm_compute; reflexivity. Qed.

(** The pyramid in binary64: 5.5604779323150684, between 5.5 and 5.625,
    while 4 * sqrt 2 is above 5.656. *)
Lemma pyramid_binary64 :
  surface_area pyramid64 1 = Returned 0x1.63deded55b112p+2
  /\ (5.5 <? 0x1.63deded55b112p+2) = true
  /\ (0x1.63deded55b112p+2 <? 5.625) = true.
Proof. repeat split; vm_compute; reflexivity. Qed.
End Binary64Examples.

(** ** What rounding does to the identities of exact arithmetic *)

Section Binary64Rounding.
Local Open Scope float_scope.


(** C3 as stated fails on float64: the result for the level 2 x 2 grid
    at resolution 1 is below the projected area 1, and the result for
    [[0,0],[3e7,9.8e7]] is NaN, which is not >= 0. *)
Lemma projected_bound_fails_binary64 :
  surface_area level64 1 = Returned 0x1.ffffffffffffcp-1
  /\ (0x1.ffffffffffffcp-1 <? (2 - 1) * (2 - 1) * (1 * 1)) = true
  /\ surface_area steep64 1 = Returned nan
  /\ (0 <=? nan) = false.
Proof. repeat split; vm_compute; reflexivity. Qed.

(** Raising a highest corner in binary64: the corner 2.56e8 of
    [[0,0],[2.4e8,2.56e8]] is above both its neighbours; raised by 4e5 it
    makes the first radicand round to 0, and the result drops from
    299163299.2 to 128200000. *)
Lemma raise_peak_shrinks_binary64 :
  (0 <=? 256000000) = true /\ (240000000 <=? 256000000) = true
  /\ raise_at peak64 1 1 400000 = [[0; 0]; [240000000; 256400000]]
  /\ surface_area peak64 1 = Returned 0x1.1d4dea33869dp+28
  /\ radicand1 (raise_at peak64 1 1 400000) 1 = [[0]]
  /\ surface_area (raise_at peak64 1 1 400000) 1 = Returned 0x1.e90b5p+26
  /\ (0x1.e90b5p+26 <? 0x1.1d4dea33869dp+28) = true.
Proof. repeat split; vm_compute; reflexivity. Qed.

(** C7 as stated fails on float64: at the resolution 2^600 > 0 the
    square is out of range, and the call on a single row raises
    [OverflowError] instead of returning 0. *)
Lemma degenerate_overflow_binary64 :
  (0 <? 0x1p+600) = true /\ is_infinity 0x1p+600 = false
  /\ surface_area row64 0x1p+600 = Raised OverflowError.
Proof. repeat split; vm_compute; reflexivity. Qed.

(** C9 as stated fails on float64: adding 2^60 to every elevation of
    [[0,1],[0,0]] rounds the relief away, and the result changes from
    1.3660254037844388 to that of a level grid. *)
Lemma raise_all_changes_binary64 :
  raise_all big64 step64 = [[big64; big64]; [big64; big64]]
  /\ surface_area step64 1 = Returned 0x1.5db3d742c2656p+0
  /\ surface_area (raise_all big64 step64) 1 = Returned 0x1.ffffffffffffcp-1
  /\ (0x1.ffffffffffffcp-1 =? 0x1.5db3d742c2656p+0) = false.
Proof. repeat split; vm_compute; reflexivity. Qed.

End Binary64Rounding.

(** ** The resolution, and grids with no neighbourhood *)

Section Unvalidated.

(** C4, as the code has it: [surface_area] does not look at the sign of
    the resolution and rejects none.  In exact arithmetic, for every grid
    and every resolution <= 0 it returns a number, the one it returns for
    the opposite resolution, and 0 when the resolution is 0.  In
    binary64, with every C library, its outcome for a resolution is its
    outcome for the opposite resolution, the same float or
    [OverflowError] for both, and never [ValueError]. *)
Theorem nonpositive_resolution_returns :
  (forall (DEM : matrix R) (r c : nat) (res : R),
     shape DEM r c -> (res <= 0)%R ->
     exists a, surface_area DEM res = Returned a
               /\ surface_area DEM (- res)%R = Returned a
               /\ (res = 0%R -> a = 0%R))
  /\ (forall (L : Libm) (DEM : matrix float) (res : float),
        surface_area DEM (- res)%float = surface_area DEM res
        /\ surface_area DEM res <> Raised ValueError).
Proof.
  split.
  - intros DEM r c res Hs _. exists (area DEM res).
    rewrite ?surface_area_returns.
    split; [reflexivity|]. split.
    + f_equal. apply area_opp.
    + intros ->. apply (area_res_0 Hs).
  - intros L DEM res. split; [apply surface_area_opp|].
    unfold surface_area. destruct (float_pow2_raises res); discriminate.
Qed.

(** At resolution 0 on a grid with relief, and at resolution -1 in
    binary64. *)
Lemma nonpositive_resolution_returns_witness :
  (exists a, surface_area pit22 0%R = Returned a
             /\ surface_area pit22 (- 0)%R = Returned a
             /\ (0%R = 0%R -> a = 0%R))
  /\ surface_area level64 (- (-1))%float = surface_area level64 (-1)%float
  /\ surface_area level64 (-1)%float <> Raised ValueError.
Proof.
  split.
  - apply (proj1 nonpositive_resolution_returns pit22 2 2 0%R).
    + split; [reflexivity|repeat constructor].
    + lra.
  - apply (proj2 nonpositive_resolution_returns libm_rounded level64 (-1)%float).
Defined.

(** C4 as stated fails: at resolution -1 the level 2 x 2 grid is not
    rejected.  In exact arithmetic 1 is returned, in binary64
    0.99999999999999956. *)
Lemma nonpositive_resolution_not_rejected :
  (-1 <= 0)%R
  /\ surface_area level22 (-1)%R = Returned 1%R
  /\ surface_area level22 (-1)%R <> Raised ValueError
  /\ (-1 <=? 0)%float = true
  /\ surface_area level64 (-1)%float = Returned 0x1.ffffffffffffcp-1%float.
Proof.
  split; [lra|]. split; [|split; [discriminate|]].
  - rewrite ?surface_area_returns. f_equal. rewrite level22_area. ring.
  - split; vm_compute; reflexivity.
Qed.

(** C7, as the code has it: a grid with fewer than two rows or fewer
    than two columns has no triangle.  In exact arithmetic
    [surface_area] returns exactly 0 at every resolution r > 0.  In
    binary64, with every C library, it returns exactly 0.0 at every
    resolution whose square [resolution ** 2.] is in range, and raises
    [OverflowError] at the others. *)
Theorem degenerate_grid_zero :
  (forall (DEM : matrix R) (r c : nat) (res : R),
     shape DEM r c -> r < 2 \/ c < 2 -> (0 < res)%R ->
     surface_area DEM res = Returned 0%R)
  /\ (forall (L : Libm) (DEM : matrix float) (r c : nat) (res : float),
        shape DEM r c -> r < 2 \/ c < 2 ->
        surface_area DEM res
        = if py_float_pow2_raises res then Raised OverflowError
          else Returned 0%float).
Proof.
  split.
  - intros DEM r c res Hs Hd _. rewrite ?surface_area_returns. f_equal.
    rewrite (area_degenerate res Hs Hd). simpl. lra.
  - intros L DEM r c res Hs Hd. apply (surface_area_degenerate res Hs Hd).
Qed.

Lemma degenerate_grid_zero_witness :
  surface_area row13 1%R = Returned 0%R
  /\ surface_area row64 1%float
     = (if py_float_pow2_raises 1%float then Raised OverflowError
        else Returned 0%float)
  /\ py_float_pow2_raises 1%float = false.
Proof.
  split; [|split].
  - apply (proj1 degenerate_grid_zero row13 1 3 1%R).
    + split; [reflexivity|repeat constructor].
    + left. lia.
    + lra.
  - apply (proj2 degenerate_grid_zero libm_rounded row64 1 3 1%float).
    + split; [reflexivity|repeat constructor].
    + left. lia.
  - reflexivity.
Defined.
End Unvalidated.


(** * Part 6: the driver functions *)

(** ** No-data cells *)

Section MaskFacts.
Context {T : Type} `{Arith T} `{Compare T}.
Implicit Types (nodata x : T) (A : raster T) (M : matrix T).

Lemma mask_cell_twice nodata x :
  mask_cell nodata (mask_cell nodata x) = mask_cell nodata x.
Proof.
  unfold mask_cell. destruct (eq_elem x nodata) eqn:Ex.
  - destruct (eq_elem lit_0 nodata); reflexivity.
  - now rewrite Ex.
Qed.

Lemma mask_band_shape nodata M (r c : nat) :
  shape M r c -> shape (map (map (mask_cell nodata)) M) r c.
Proof.
  intros [Hr Hc]. split.
  - now rewrite length_map.
  - apply Forall_forall; intros row Hrow. apply in_map_iff in Hrow.
    destruct Hrow as [row' [<- Hin]]. rewrite length_map.
    rewrite Forall_forall in Hc. now apply Hc.
Qed.

Lemma mask_band_get nodata M (r c i j : nat) :
  shape M r c -> i < r -> j < c ->
  get (map (map (mask_cell nodata)) M) i j = mask_cell nodata (get M i j).
Proof.
  intros Hs Hi Hj. rewrite (shape_tabulate Hs) at 1.
  rewrite tabulate_map, get_tabulate by assumption. reflexivity.
Qed.

(** Substituting twice is substituting once. *)
Theorem mask_nodata_idempotent nodata A :
  mask_nodata nodata (mask_nodata nodata A) = mask_nodata nodata A.
Proof.
  unfold mask_nodata. rewrite map_map.
  apply map_ext; intros M. rewrite map_map.
  apply map_ext; intros row. rewrite map_map.
  apply map_ext; intros x. apply mask_cell_twice.
Qed.

(** When 0 itself does not compare equal to the no-data value, no
    element of the array compares equal to it after the substitution. *)
Theorem mask_nodata_clears nodata A :
  eq_elem lit_0 nodata = false ->
  Forall (Forall (Forall (fun x => eq_elem x nodata = false)))
         (mask_nodata nodata A).
Proof.
  intros Hzero. unfold mask_nodata.
  apply Forall_forall; intros M HM. apply in_map_iff in HM.
  destruct HM as [M' [<- _]].
  apply Forall_forall; intros row Hrow. apply in_map_iff in Hrow.
  destruct Hrow as [row' [<- _]].
  apply Forall_forall; intros x Hx. apply in_map_iff in Hx.
  destruct Hx as [x' [<- _]].
  unfold mask_cell. destruct (eq_elem x' nodata) eqn:Ex; assumption.
Qed.

(** An array with no element equal to the no-data value is left as it
    is. *)
Theorem mask_nodata_absent nodata A :
  Forall (Forall (Forall (fun x => eq_elem x nodata = false))) A ->
  mask_nodata nodata A = A.
Proof.
  intros Hno. unfold mask_nodata.
  rewrite <- (map_id A) at 2.
  apply map_ext_in; intros M HM. rewrite <- (map_id M) at 2.
  apply map_ext_in; intros row Hrow. rewrite <- (map_id row) at 2.
  apply map_ext_in; intros x Hx.
  rewrite Forall_forall in Hno. specialize (Hno M HM).
  rewrite Forall_forall in Hno. specialize (Hno row Hrow).
  rewrite Forall_forall in Hno. specialize (Hno x Hx).
  unfold mask_cell. now rewrite Hno.
Qed.
End MaskFacts.

(** ** [compare_surface_area] *)

Section DriverFacts.
Context {T : Type} `{Arith T} `{Compare T} {E : Type}.
Implicit Types (dem_arr rest : raster T) (band : matrix T)
  (dict_json : rio_info T) (nodata resolution : T) (expected : E)
  (log : list (line T E)).

(** With both keys, a resolution whose square is in range and a band,
    the run prints two lines. *)
Lemma compare_surface_area_run band rest resolution res' nodata (t0 t1 : T) expected log :
  float_pow2_raises resolution = false ->
  compare_surface_area (band :: rest)
    {| info_res := Some (resolution :: res'); info_nodata := Some nodata |}
    t0 t1 expected log
  = (log ++ [AreaReport (area (map (map (mask_cell nodata)) band) resolution)
                        (sub t1 t0);
             ExpectedApproximation expected],
     Done tt).
Proof.
  intros Hr.
  unfold compare_surface_area, bind, lookup_res, lookup_nodata, first,
    getSurfaceAreaFromDEM, surface_area, print, ret. simpl.
  rewrite Hr. now rewrite <- app_assoc.
Qed.

(** When the square of the resolution overflows, [surface_area] raises
    and the exception leaves [compare_surface_area] before anything is
    printed. *)
Lemma compare_surface_area_overflow band rest resolution res' nodata (t0 t1 : T)
    expected log :
  float_pow2_raises resolution = true ->
  compare_surface_area (band :: rest)
    {| info_res := Some (resolution :: res'); info_nodata := Some nodata |}
    t0 t1 expected log
  = (log, Failed (Propagated OverflowError)).
Proof.
  intros Hr.
  unfold compare_surface_area, bind, lookup_res, lookup_nodata, first,
    getSurfaceAreaFromDEM, surface_area, raise, ret. simpl.
  now rewrite Hr.
Qed.

(** [compare_surface_area] never leaves a partial report: either it
    raises and has printed nothing, or it returns and has printed exactly
    the area line, with the elapsed time t1 - t0, and the expected-value
    line. *)
Theorem compare_surface_area_atomic dem_arr dict_json (t0 t1 : T) expected log :
  (exists e, compare_surface_area dem_arr dict_json t0 t1 expected log
             = (log, Failed e))
  \/ (exists a, compare_surface_area dem_arr dict_json t0 t1 expected log
                = (log ++ [AreaReport a (sub t1 t0);
                           ExpectedApproximation expected],
                   Done tt)).
Proof.
  destruct dict_json as [[[|resolution res']|] [nodata|]];
    try (left; eexists; cbv; reflexivity).
  destruct dem_arr as [|band rest]; [left; eexists; cbv; reflexivity|].
  destruct (float_pow2_raises resolution) eqn:Hr.
  - left. eexists. now apply compare_surface_area_overflow.
  - right. eexists. now apply compare_surface_area_run.
Qed.

(** What [compare_surface_area] raises before it calls [surface_area],
    in the order in which the source reads its inputs: KeyError for a
    missing 'res', IndexError for an empty 'res', KeyError for a missing
    'nodata', IndexError for an array with no band. *)
Theorem compare_surface_area_raises dem_arr (t0 t1 : T) expected log :
  (forall nd,
     compare_surface_area dem_arr {| info_res := None; info_nodata := nd |}
       t0 t1 expected log = (log, Failed (KeyError key_res)))
  /\ (forall nd,
        compare_surface_area dem_arr {| info_res := Some []; info_nodata := nd |}
          t0 t1 expected log = (log, Failed IndexError))
  /\ (forall resolution res',
        compare_surface_area dem_arr
          {| info_res := Some (resolution :: res'); info_nodata := None |}
          t0 t1 expected log = (log, Failed (KeyError key_nodata)))
  /\ (forall resolution res' nodata,
        compare_surface_area []
          {| info_res := Some (resolution :: res'); info_nodata := Some nodata |}
          t0 t1 expected log = (log, Failed IndexError)).
Proof. repeat split; reflexivity. Qed.

(** It raises in these four cases and when the square of the first
    component of 'res' overflows, and in no other case. *)
Theorem compare_surface_area_raises_iff dem_arr dict_json (t0 t1 : T) expected log :
  (exists e, snd (compare_surface_area dem_arr dict_json t0 t1 expected log)
             = Failed e)
  <-> info_res dict_json = None \/ info_res dict_json = Some []
      \/ info_nodata dict_json = None \/ dem_arr = []
      \/ (exists resolution res',
            info_res dict_json = Some (resolution :: res')
            /\ float_pow2_raises resolution = true).
Proof.
  destruct dict_json as [[[|resolution res']|] [nodata|]];
    destruct dem_arr as [|band rest];
    try (split; [intros _; cbn; auto 6 | intros _; eexists; cbv; reflexivity]).
  cbn [info_res info_nodata].
  destruct (float_pow2_raises resolution) eqn:Hr.
  - rewrite compare_surface_area_overflow by exact Hr. split.
    + intros _. do 4 right. now exists resolution, res'.
    + intros _. eexists. reflexivity.
  - rewrite compare_surface_area_run by exact Hr. cbn [snd]. split.
    + intros [e He]. discriminate.
    + intros [Hc | [Hc | [Hc | [Hc | [x [xs [Hc Hx]]]]]]]; try discriminate.
      injection Hc as <- _. congruence.
Qed.

(** Only the first band and the first component of 'res' are used: the
    other bands and the resolution along the other axis change nothing. *)
Theorem compare_surface_area_first_only band rest rest' resolution res' res''
    nodata (t0 t1 : T) expected log :
  compare_surface_area (band :: rest)
    {| info_res := Some (resolution :: res'); info_nodata := Some nodata |}
    t0 t1 expected log
  = compare_surface_area (band :: rest')
      {| info_res := Some (resolution :: res''); info_nodata := Some nodata |}
      t0 t1 expected log.
Proof.
  destruct (float_pow2_raises resolution) eqn:Hr.
  - now rewrite !compare_surface_area_overflow by exact Hr.
  - now rewrite !compare_surface_area_run by exact Hr.
Qed.

(** When no element of the first band compares equal to the no-data
    value and the square of the resolution is in range, the area printed
    is the one [surface_area] returns for the band as it was read. *)
Theorem compare_surface_area_no_nodata band rest resolution res' nodata
    (t0 t1 : T) expected log :
  Forall (Forall (fun x => eq_elem x nodata = false)) band ->
  float_pow2_raises resolution = false ->
  exists a, surface_area band resolution = Returned a
    /\ compare_surface_area (band :: rest)
         {| info_res := Some (resolution :: res'); info_nodata := Some nodata |}
         t0 t1 expected log
       = (log ++ [AreaReport a (sub t1 t0); ExpectedApproximation expected],
          Done tt).
Proof.
  intros Hno Hr. exists (area band resolution). split.
  - unfold surface_area. now rewrite Hr.
  - rewrite compare_surface_area_run by exact Hr.
    assert (Hband : map (map (mask_cell nodata)) band = band).
    { assert (Hall : mask_nodata nodata [band] = [band]).
      { apply mask_nodata_absent. constructor; [exact Hno|constructor]. }
      unfold mask_nodata in Hall. simpl in Hall. injection Hall as Hall.
      exact Hall. }
    now rewrite Hband.
Qed.
End DriverFacts.

(** ** No-data cells count as elevation 0 *)

Lemma in_concat_map {A B} (f : A -> B) (M : list (list A)) (x : A) :
  In x (concat M) -> In (f x) (concat (map (map f) M)).
Proof.
  rewrite !in_concat. intros [row [Hrow Hx]].
  exists (map f row). split; now apply in_map.
Qed.

Lemma in_concat_map_inv {A B} (f : A -> B) (M : list (list A)) (y : B) :
  In y (concat (map (map f) M)) -> exists x, In x (concat M) /\ y = f x.
Proof.
  rewrite in_concat. intros [row' [Hrow' Hy]].
  apply in_map_iff in Hrow'. destruct Hrow' as [row [<- Hrow]].
  apply in_map_iff in Hy. destruct Hy as [x [<- Hx]].
  exists x. split; [|reflexivity]. apply in_concat. now exists row.
Qed.

Section ExactDriver.
Local Open Scope R_scope.
Context {E : Type}.

Lemma eq_elem_R (x y : R) : eq_elem x y = true <-> x = y.
Proof.
  simpl. destruct (Req_dec_T x y) as [Heq | Hne]; split; intros Hxy;
    try reflexivity; try assumption; try discriminate. contradiction.
Qed.

Lemma mask_cell_R_nodata (nodata : R) : mask_cell nodata nodata = 0.
Proof.
  unfold mask_cell. destruct (eq_elem nodata nodata) eqn:Ex; [reflexivity|].
  assert (Ht : eq_elem nodata nodata = true) by now apply eq_elem_R.
  rewrite Ht in Ex. discriminate.
Qed.

Lemma mask_cell_R_valid (nodata x : R) : x <> nodata -> mask_cell nodata x = x.
Proof.
  intros Hne. unfold mask_cell. destruct (eq_elem x nodata) eqn:Ex; [|reflexivity].
  apply eq_elem_R in Ex. contradiction.
Qed.

(** The comment in the source says the substitution keeps the no-data
    cells out of the area.  It does not: such a cell is an elevation of 0.
    When the first band, of at least 2 x 2 cells, has a no-data cell and a
    cell with data other than 0, the area printed is strictly above the
    flat projected area, whatever the data. *)
Theorem nodata_cells_add_relief (band : matrix R) (rest : raster R)
    (r c : nat) (resolution : R) (res' : list R) (nodata t0 t1 : R)
    (expected : E) (log : list (line R E)) :
  shape band r c -> (2 <= r)%nat -> (2 <= c)%nat -> resolution <> 0 ->
  In nodata (concat band) ->
  (exists v, In v (concat band) /\ v <> nodata /\ v <> 0) ->
  exists a,
    compare_surface_area (band :: rest)
      {| info_res := Some (resolution :: res'); info_nodata := Some nodata |}
      t0 t1 expected log
    = (log ++ [AreaReport a (t1 - t0); ExpectedApproximation expected], Done tt)
    /\ INR (r - 1) * INR (c - 1) * resolution * resolution < a.
Proof.
  intros Hs Hr Hc Hres Hhole [v [Hv [Hvn Hv0]]].
  exists (area (map (map (mask_cell nodata)) band) resolution).
  split; [rewrite compare_surface_area_run by reflexivity; reflexivity|].
  pose proof (mask_band_shape nodata Hs) as Hs'.
  pose proof (area_ge_flat resolution Hs') as Hge.
  fold (flat_area r c resolution).
  destruct (Req_dec_T (area (map (map (mask_cell nodata)) band) resolution)
                      (flat_area r c resolution)) as [Heq | Hne]; [|lra].
  exfalso. apply Hv0.
  apply (flat_of_area Hs' Hr Hc Hres Heq).
  - rewrite <- (mask_cell_R_valid Hvn). now apply in_concat_map.
  - rewrite <- (mask_cell_R_nodata nodata). now apply in_concat_map.
Qed.

(** A first band made of no-data cells only is reported with the flat
    projected area of its shape. *)
Theorem all_nodata_reports_flat_area (band : matrix R) (rest : raster R)
    (r c : nat) (resolution : R) (res' : list R) (nodata t0 t1 : R)
    (expected : E) (log : list (line R E)) :
  shape band r c ->
  (forall x, In x (concat band) -> x = nodata) ->
  compare_surface_area (band :: rest)
    {| info_res := Some (resolution :: res'); info_nodata := Some nodata |}
    t0 t1 expected log
  = (log ++ [AreaReport (INR (r - 1) * INR (c - 1) * resolution * resolution)
                        (t1 - t0);
             ExpectedApproximation expected],
     Done tt).
Proof.
  intros Hs Hall. rewrite compare_surface_area_run by reflexivity.
  pose proof (mask_band_shape nodata Hs) as Hs'.
  rewrite (area_of_flat resolution Hs'); [reflexivity|].
  intros x y Hx Hy.
  apply in_concat_map_inv in Hx, Hy.
  destruct Hx as [x' [Hx' ->]], Hy as [y' [Hy' ->]].
  now rewrite (Hall x' Hx'), (Hall y' Hy').
Qed.
End ExactDriver.

Section ExactDriverExamples.
Local Open Scope R_scope.

Lemma nodata_cells_add_relief_witness :
  exists a,
    compare_surface_area (E := unit) [holed22]
      {| info_res := Some [1; 1]; info_nodata := Some (-9999) |}
      0 2 tt []
    = ([] ++ [AreaReport a (2 - 0); ExpectedApproximation tt], Done tt)
    /\ INR (2 - 1) * INR (2 - 1) * 1 * 1 < a.
Proof.
  apply (@nodata_cells_add_relief unit holed22 [] 2 2 1 [1] (-9999) 0 2 tt []).
  - split; [reflexivity|repeat constructor].
  - lia.
  - lia.
  - lra.
  - simpl. tauto.
  - exists 5. simpl. split; [tauto|split; lra].
Defined.

Lemma all_nodata_reports_flat_area_witness :
  compare_surface_area (E := unit) [level22]
    {| info_res := Some [3]; info_nodata := Some 0 |} 0 2 tt []
  = ([] ++ [AreaReport (INR (2 - 1) * INR (2 - 1) * 3 * 3) (2 - 0);
            ExpectedApproximation tt],
     Done tt).
Proof.
  apply (@all_nodata_reports_flat_area unit level22 [] 2 2 3 [] 0 0 2 tt []).
  - split; [reflexivity|repeat constructor].
  - intros x Hx. simpl in Hx. repeat (destruct Hx as [<- | Hx]);
      try reflexivity; contradiction.
Defined.
End ExactDriverExamples.

(** ** The driver in binary64 *)

Section Binary64Driver.
Local Open Scope float_scope.
Context {E : Type}.

(** NaN compares equal to nothing. *)
Lemma eqb_nan_l (x y : float) : Prim2SF x = S754_nan -> PrimFloat.eqb x y = false.
Proof. intros Hx. rewrite eqb_spec, Hx. reflexivity. Qed.

Lemma eqb_nan_r (x y : float) : Prim2SF y = S754_nan -> PrimFloat.eqb x y = false.
Proof.
  intros Hy. rewrite eqb_spec, Hy. unfold SFeqb.
  destruct (Prim2SF x) as [s|s| |s m e]; reflexivity.
Qed.

(** A no-data value of NaN selects no element: the array is left as it
    is, its NaN elements included. *)
Theorem nan_nodata_masks_nothing (nodata : float) (dem_arr : raster float) :
  is_nan nodata = true -> mask_nodata nodata dem_arr = dem_arr.
Proof.
  intros Hnan. apply is_nan_spec in Hnan. apply mask_nodata_absent.
  apply Forall_forall; intros M _. apply Forall_forall; intros row _.
  apply Forall_forall; intros x _. simpl. now apply eqb_nan_r.
Qed.

Lemma nan_nodata_masks_nothing_witness :
  mask_nodata nan nan_raster64 = nan_raster64.
Proof. apply (@nan_nodata_masks_nothing nan nan_raster64). reflexivity. Defined.

End Binary64Driver.

Section Binary64Reports.
Local Open Scope float_scope.
Context {L : Libm} {E : Type}.

(** A NaN in the first band is never substituted, whatever the no-data
    value: for a first band of at least 2 x 2 elements the area printed
    is NaN when the square of the resolution is in range; when it
    overflows, [OverflowError] leaves the function and nothing is
    printed. *)
Theorem nan_cell_reports_nan (band : matrix float) (rest : raster float)
    (r c : nat) (resolution : float) (res' : list float)
    (nodata t0 t1 : float) (expected : E) (log : list (line float E)) :
  shape band r c -> (2 <= r)%nat -> (2 <= c)%nat ->
  (exists x, In x (concat band) /\ is_nan x = true) ->
  (py_float_pow2_raises resolution = false
   /\ exists a,
        compare_surface_area (band :: rest)
          {| info_res := Some (resolution :: res'); info_nodata := Some nodata |}
          t0 t1 expected log
        = (log ++ [AreaReport a (t1 - t0); ExpectedApproximation expected],
           Done tt)
        /\ is_nan a = true)
  \/ (py_float_pow2_raises resolution = true
      /\ compare_surface_area (band :: rest)
           {| info_res := Some (resolution :: res'); info_nodata := Some nodata |}
           t0 t1 expected log
         = (log, Failed (Propagated OverflowError))).
Proof.
  intros Hs Hr Hc [x [Hin Hnan]].
  destruct (py_float_pow2_raises resolution) eqn:Ho.
  - right. split; [reflexivity|]. now apply compare_surface_area_overflow.
  - left. split; [reflexivity|].
    exists (area (map (map (mask_cell nodata)) band) resolution).
    split; [rewrite compare_surface_area_run by exact Ho; reflexivity|].
    apply (in_grid _ Hs) in Hin. destruct Hin as [i [j [Hi [Hj ->]]]].
    apply is_nan_spec.
    apply (area_nan resolution (mask_band_shape nodata Hs) Hr Hc Hi Hj).
    rewrite (mask_band_get nodata Hs Hi Hj).
    unfold mask_cell. simpl eq_elem.
    rewrite (eqb_nan_l _ nodata) by now apply is_nan_spec.
    now left.
Qed.
End Binary64Reports.

Section Binary64DriverExamples.
Local Open Scope float_scope.

Lemma nan_cell_reports_nan_witness :
  (py_float_pow2_raises 1 = false
   /\ exists a,
        compare_surface_area (E := unit) nan_raster64
          {| info_res := Some [1]; info_nodata := Some 0 |} 0 2 tt []
        = ([] ++ [AreaReport a (2 - 0); ExpectedApproximation tt], Done tt)
        /\ is_nan a = true)
  \/ (py_float_pow2_raises 1 = true
      /\ compare_surface_area (E := unit) nan_raster64
           {| info_res := Some [1]; info_nodata := Some 0 |} 0 2 tt []
         = ([], Failed (Propagated OverflowError))).
Proof.
  apply (@nan_cell_reports_nan libm_rounded unit nan64 [] 2 2 1 [] 0 0 2 tt []).
  - split; [reflexivity|repeat constructor].
  - lia.
  - lia.
  - exists nan. split; [simpl; now left|reflexivity].
Defined.

(** [test_known_pyramid] asserts nothing and raises nothing: whatever the
    clock, it prints the computed area 5.5604779323150684 and the expected
    area 5.6568542494923806, which differ by more than 0.09375. *)
Theorem test_known_pyramid_prints (E : Type) (t0 t1 : float)
    (log : list (line float E)) :
  test_known_pyramid t0 t1 log
  = (log ++ [AreaReport 0x1.63deded55b112p+2 (t1 - t0);
             ExpectedArea 0x1.6a09e667f3bcdp+2],
     Done tt)
  /\ (0.09375 <? 0x1.6a09e667f3bcdp+2 - 0x1.63deded55b112p+2) = true.
Proof.
  split; [|vm_compute; reflexivity].
  assert (Hp : surface_area pyramid64 1 = Returned 0x1.63deded55b112p+2)
    by (vm_compute; reflexivity).
  unfold test_known_pyramid, bind, getSurfaceAreaFromDEM. rewrite Hp.
  unfold print. rewrite <- app_assoc. simpl app.
  reflexivity.
Qed.
End Binary64DriverExamples.

(** ** The resolution in binary64 *)

Section Binary64Resolution.
Context {L : Libm}.
Local Open Scope float_scope.


(** A resolution that is NaN or infinite is not rejected either: on a
    grid of at least 2 x 2 elements, whatever they are, the result is
    NaN. *)
Theorem non_finite_resolution_returns_nan (DEM : matrix float) (r c : nat)
    (res : float) :
  shape DEM r c -> (2 <= r)%nat -> (2 <= c)%nat -> non_finite res ->
  exists a, surface_area DEM res = Returned a /\ is_nan a = true.
Proof.
  intros Hs Hr Hc Hres. apply non_finite_spec in Hres.
  exists (area DEM res). split.
  { unfold surface_area.
    now destruct (float_pow2_non_finite res Hres) as [-> _]. }
  apply is_nan_spec.
  rewrite (shape_tabulate Hs). unfold area. apply add_nan_l.
  rewrite radicand1_tabulate.
  apply (@np_sum_sqrt_nan _ _ _ (at_cell (upper res) (get DEM)) 0 0);
    [lia|lia|].
  unfold at_cell. now apply upper_nan_resolution.
Qed.
End Binary64Resolution.

Section Binary64ResolutionExamples.
Local Open Scope float_scope.

Lemma non_finite_resolution_returns_nan_witness :
  exists a, surface_area level64 infinity = Returned a /\ is_nan a = true.
Proof.
  apply (@non_finite_resolution_returns_nan libm_rounded level64 2 2 infinity).
  - split; [reflexivity|repeat constructor].
  - lia.
  - lia.
  - right. reflexivity.
Defined.
End Binary64ResolutionExamples.

(** * Part 7: more of [surface_area] in exact arithmetic *)

Section ExactUnits.
Local Open Scope R_scope.

Lemma Rsum_map_scal {X} (k : R) (f : X -> R) (l : list X) :
  Rsum (map (fun x => k * f x) l) = k * Rsum (map f l).
Proof. induction l as [|x l IH]; simpl; [lra|]. rewrite IH. lra. Qed.

Lemma sum2_scal r c (k : R) (f : nat -> nat -> R) :
  sum2 r c (fun i j => k * f i j) = k * sum2 r c f.
Proof.
  unfold sum2. rewrite <- Rsum_map_scal. apply Rsum_map_ext; intros i _.
  apply Rsum_map_scal.
Qed.

Lemma tri_scale (k res p q : R) :
  tri (k * res) (k * p) (k * q) = k * k * tri res p q.
Proof.
  unfold tri.
  replace (k * res * (k * res) + k * p * (k * p) + k * q * (k * q))
    with (Rsqr k * (res * res + p * p + q * q)) by (unfold Rsqr; ring).
  rewrite sqrt_mult_alt by apply Rle_0_sqr.
  rewrite sqrt_Rsqr_abs, Rabs_mult.
  replace (k * k) with (Rsqr (Rabs k)) by (rewrite <- Rsqr_abs; reflexivity).
  unfold Rsqr. field.
Qed.

Lemma tri_negate (res p q : R) : tri res (- p) (- q) = tri res p q.
Proof. unfold tri. f_equal. f_equal. ring. Qed.

Lemma cell_area_scale (k res tl tr bl br : R) :
  cell_area (k * res) (k * tl) (k * tr) (k * bl) (k * br)
  = k * k * cell_area res tl tr bl br.
Proof.
  unfold cell_area.
  replace (k * tl - k * bl) with (k * (tl - bl)) by ring.
  replace (k * bl - k * br) with (k * (bl - br)) by ring.
  replace (k * tl - k * tr) with (k * (tl - tr)) by ring.
  replace (k * tr - k * br) with (k * (tr - br)) by ring.
  rewrite !tri_scale. ring.
Qed.

Lemma cell_area_negate (res tl tr bl br : R) :
  cell_area res (0 - tl) (0 - tr) (0 - bl) (0 - br) = cell_area res tl tr bl br.
Proof.
  unfold cell_area.
  replace (0 - tl - (0 - bl)) with (- (tl - bl)) by ring.
  replace (0 - bl - (0 - br)) with (- (bl - br)) by ring.
  replace (0 - tl - (0 - tr)) with (- (tl - tr)) by ring.
  replace (0 - tr - (0 - br)) with (- (tr - br)) by ring.
  now rewrite !tri_negate.
Qed.

(** A change of the unit of length: multiplying every elevation and the
    resolution by k multiplies the result by k * k, for every real k. *)
Theorem scale_all_homogeneous (DEM : matrix R) (r c : nat) (res k : R) :
  shape DEM r c ->
  exists a, surface_area DEM res = Returned a
    /\ surface_area (scale_all k DEM) (k * res) = Returned (k * k * a).
Proof.
  intros Hs. exists (area DEM res). split; [reflexivity|].
  rewrite ?surface_area_returns. f_equal. unfold scale_all.
  rewrite (shape_tabulate Hs) at 1.
  rewrite tabulate_map, area_tabulate, (area_exact res Hs), <- sum2_scal.
  apply sum2_ext; intros i j _ _. unfold at_cell. simpl mul.
  apply cell_area_scale.
Qed.

Lemma scale_all_homogeneous_witness :
  exists a, surface_area pyramid 1 = Returned a
    /\ surface_area (scale_all 3 pyramid) (3 * 1) = Returned (3 * 3 * a).
Proof.
  apply (@scale_all_homogeneous pyramid 3 3 1 3).
  split; [reflexivity|repeat constructor].
Defined.

(** Pits and peaks weigh the same: negating every elevation leaves the
    result unchanged. *)
Theorem negate_all_invariant (DEM : matrix R) (r c : nat) (res : R) :
  shape DEM r c ->
  surface_area (negate_all DEM) res = surface_area DEM res.
Proof.
  intros Hs. rewrite ?surface_area_returns. f_equal. unfold negate_all.
  rewrite (shape_tabulate Hs) at 1.
  rewrite tabulate_map, area_tabulate, (area_exact res Hs).
  apply sum2_ext; intros i j _ _. unfold at_cell. simpl sub. simpl lit_0.
  apply cell_area_negate.
Qed.

Lemma negate_all_invariant_witness :
  surface_area (negate_all pit22) 1 = surface_area pit22 1.
Proof.
  apply (@negate_all_invariant pit22 2 2 1).
  split; [reflexivity|repeat constructor].
Defined.
End ExactUnits.

(** ** Tiles *)

Lemma firstn_seq_le (n s m : nat) : n <= m -> firstn n (seq s m) = seq s n.
Proof.
  revert s m; induction n as [|n IH]; intros s m Hle; [reflexivity|].
  destruct m as [|m]; [lia|]. simpl. f_equal. apply IH. lia.
Qed.

Lemma skipn_seq_shift (n m : nat) :
  n <= m -> skipn n (seq 0 m) = map (fun i => n + i) (seq 0 (m - n)).
Proof.
  intros Hle. replace m with (n + (m - n)) at 1 by lia.
  rewrite seq_app, skipn_app, length_seq, Nat.sub_diag.
  rewrite skipn_all2 by (rewrite length_seq; lia). simpl.
  generalize (m - n). clear. intros b.
  induction n as [|n IH]; simpl.
  - symmetry. apply map_id.
  - rewrite <- seq_shift, IH, map_map. reflexivity.
Qed.

Section Tiles.
Context {T : Type} `{Arith T}.

(** [DEM[0:k+1]]: the rows up to row k. *)
Lemma firstn_tabulate (k r c : nat) (f : nat -> nat -> T) :
  k <= r -> firstn k (tabulate r c f) = tabulate k c f.
Proof.
  intros Hle. unfold tabulate. now rewrite firstn_map, firstn_seq_le.
Qed.

(** [DEM[k:]]: the rows from row k on. *)
Lemma skipn_tabulate (k r c : nat) (f : nat -> nat -> T) :
  k <= r ->
  skipn k (tabulate r c f) = tabulate (r - k) c (fun i j => f (k + i) j).
Proof.
  intros Hle. unfold tabulate.
  now rewrite skipn_map, skipn_seq_shift, map_map.
Qed.
End Tiles.

Section ExactTiles.
Local Open Scope R_scope.

Lemma sum2_split (a b c : nat) (F : nat -> nat -> R) :
  sum2 (a + b) c F
  = sum2 a c F + sum2 b c (fun i j => F (a + i)%nat j).
Proof.
  unfold sum2. rewrite seq_app, map_app, Rsum_app. f_equal.
  simpl. replace (seq a b) with (skipn a (seq 0 (a + b))).
  - rewrite skipn_seq_shift by lia.
    replace (a + b - a)%nat with b by lia. now rewrite map_map.
  - rewrite seq_app, skipn_app, length_seq, Nat.sub_diag.
    rewrite skipn_all2 by (rewrite length_seq; lia). reflexivity.
Qed.

(** A grid can be cut into two tiles that share one row: the results for
    the rows up to row k and for the rows from row k on add up to the
    result for the whole grid. *)
Theorem tiles_add_up (DEM : matrix R) (r c k : nat) (res : R) :
  shape DEM r c -> (k < r)%nat ->
  exists a b, surface_area (firstn (S k) DEM) res = Returned a
    /\ surface_area (skipn k DEM) res = Returned b
    /\ surface_area DEM res = Returned (a + b).
Proof.
  intros Hs Hk.
  exists (area (firstn (S k) DEM) res), (area (skipn k DEM) res).
  split; [reflexivity|]. split; [reflexivity|].
  rewrite ?surface_area_returns. f_equal.
  pose proof (shape_tabulate Hs) as HD.
  rewrite (area_exact res Hs). set (g := get DEM) in *. rewrite HD.
  rewrite firstn_tabulate, skipn_tabulate by lia.
  rewrite !area_tabulate.
  replace (r - 1)%nat with (k + (r - k - 1))%nat by lia.
  rewrite sum2_split.
  replace (S k - 1)%nat with k by lia.
  replace (k + (r - k - 1) - k)%nat with (r - k - 1)%nat by lia.
  f_equal. apply sum2_ext; intros i j _ _.
  unfold at_cell. now rewrite Nat.add_succ_r.
Qed.

Lemma tiles_add_up_witness :
  exists a b, surface_area (firstn (S 1) pyramid) 1 = Returned a
    /\ surface_area (skipn 1 pyramid) 1 = Returned b
    /\ surface_area pyramid 1 = Returned (a + b).
Proof.
  apply (@tiles_add_up pyramid 3 3 1 1).
  - split; [reflexivity|repeat constructor].
  - lia.
Defined.
End ExactTiles.

(** ** Runs of the driver in binary64 *)

Section Binary64Runs.
Local Open Scope float_scope.

Lemma mask_nodata_clears_witness :
  Forall (Forall (Forall (fun x => eq_elem x (-9999) = false)))
         (mask_nodata (-9999) [[[-9999; 5]; [7; -9999]]]).
Proof.
  apply (@mask_nodata_clears float FArith FCompare (-9999)
           [[[-9999; 5]; [7; -9999]]]).
  reflexivity.
Defined.

Lemma compare_surface_area_no_nodata_witness :
  exists a, surface_area step64 1 = Returned a
    /\ compare_surface_area (E := unit) [step64]
         {| info_res := Some [1; 1]; info_nodata := Some (-9999) |}
         0 2 tt []
       = ([] ++ [AreaReport a (sub 2 0); ExpectedApproximation tt], Done tt).
Proof.
  apply (@compare_surface_area_no_nodata float FArith FCompare unit
           step64 [] 1 [1] (-9999) 0 2 tt []).
  - repeat constructor.
  - reflexivity.
Defined.
End Binary64Runs.
